(** * The places search route: [src/app/api/search/route.ts]

    A shallow embedding of the route handler [POST] and of its helpers
    [toRecord], [sanitizeMaxResults], [fetchPlaceDetails] and
    [fetchTextSearchPage], with the properties of the aggregation pipeline.

    The remote service and the scheduling of concurrent promises are the
    only things outside the program; they are gathered in a [World] that
    answers every request the handler issues.  The handler itself is a
    function from a world and from what reading the body of the request
    yields to an HTTP response, together with the list of effects
    (requests, pauses) it performed. *)

From Stdlib Require Import ZArith QArith Qround String Ascii List Lia Bool.
From Stdlib Require Import DecimalString.
Import ListNotations.

Local Close Scope Q_scope.
Local Open Scope nat_scope.
Local Open Scope string_scope.
Local Open Scope list_scope.

(* ================================================================= *)
(** ** The fragment of JavaScript the route relies on *)

Module Js.

(** A JavaScript number.  Finite doubles are rationals; the route only
    applies [Math.floor], [Math.min], [Math.max] and [<] to them, all of
    which are exact on doubles, so a rational carries no rounding. *)
Inductive Number : Type :=
| NaN
| PosInf
| NegInf
| Fin (q : Q).

Definition of_Z (z : Z) : Number := Fin (inject_Z z).
Definition of_nat (n : nat) : Number := of_Z (Z.of_nat n).

(** The values a parsed JSON body, or any [unknown], may hold. *)
Inductive Value : Type :=
| Undefined
| Null
| Boolean (b : bool)
| Num (n : Number)
| Str (s : string)
| Object.  (* any other value: neither a number nor a string *)

(** [typeof v === "number"] *)
Definition typeof_number (v : Value) : option Number :=
  match v with
  | Num n => Some n
  | _ => None
  end.

(** [typeof v === "string"] *)
Definition typeof_string (v : Value) : option string :=
  match v with
  | Str s => Some s
  | _ => None
  end.

Definition Number_isNaN (n : Number) : bool :=
  match n with
  | NaN => true
  | _ => false
  end.

Definition Math_floor (n : Number) : Number :=
  match n with
  | Fin q => Fin (inject_Z (Qfloor q))
  | other => other
  end.

Definition Math_max (a b : Number) : Number :=
  match a, b with
  | NaN, _ | _, NaN => NaN
  | PosInf, _ | _, PosInf => PosInf
  | NegInf, x | x, NegInf => x
  | Fin x, Fin y => if Qle_bool x y then Fin y else Fin x
  end.

Definition Math_min (a b : Number) : Number :=
  match a, b with
  | NaN, _ | _, NaN => NaN
  | NegInf, _ | _, NegInf => NegInf
  | PosInf, x | x, PosInf => x
  | Fin x, Fin y => if Qle_bool x y then Fin x else Fin y
  end.

(** [a < b] on numbers; any comparison with [NaN] is false. *)
Definition lt (a b : Number) : bool :=
  match a, b with
  | NaN, _ | _, NaN => false
  | _, NegInf => false
  | NegInf, _ => true
  | PosInf, _ => false
  | _, PosInf => true
  | Fin x, Fin y => negb (Qle_bool y x)
  end.

(** [ToIntegerOrInfinity] of the language specification. *)
Inductive IntegerOrInfinity : Type :=
| MinusInfinity
| Integer (z : Z)
| PlusInfinity.

Definition ToIntegerOrInfinity (n : Number) : IntegerOrInfinity :=
  match n with
  | NaN => Integer 0
  | PosInf => PlusInfinity
  | NegInf => MinusInfinity
  | Fin q => Integer (Z.quot (Qnum q) (Zpos (Qden q)))
  end.

(** The clamping of a relative index that [Array.prototype.slice] applies
    to both of its arguments. *)
Definition relative_index (len : nat) (i : IntegerOrInfinity) : nat :=
  match i with
  | MinusInfinity => 0
  | Integer z =>
      if (z <? 0)%Z then Z.to_nat (Z.max (Z.of_nat len + z) 0)
      else Z.to_nat (Z.min z (Z.of_nat len))
  | PlusInfinity => len
  end.

(** [items.slice(start, end)] *)
Definition slice {A : Type} (items : list A) (start stop : Number) : list A :=
  let len := length items in
  let k := relative_index len (ToIntegerOrInfinity start) in
  let final := relative_index len (ToIntegerOrInfinity stop) in
  firstn (final - k) (skipn k items).

(** The text a template literal substitutes for a number
    ([Number::toString], radix 10).  The whole numbers below [2^53] in
    magnitude, which are all doubles and one apart at most, print as their
    decimal digits; the notation of every other finite double (the
    shortest digits that read back as the same double, padded with zeros
    or with an exponent) is left to [fractional]. *)
Definition Number_toString (fractional : Q -> string) (n : Number) : string :=
  match n with
  | NaN => "NaN"
  | PosInf => "Infinity"
  | NegInf => "-Infinity"
  | Fin q =>
      let z := Qfloor q in
      if (Qeq_bool q (inject_Z z) && (Z.abs z <? 2 ^ 53)%Z)%bool
      then NilZero.string_of_int (Z.to_int z)
      else fractional q
  end.

(** Code units that [String.prototype.trim] strips.  Strings are
    sequences of 8-bit code units here, so of the white space and line
    terminators of the language those up to U+00A0 appear. *)
Definition is_white_space (c : ascii) : bool :=
  match nat_of_ascii c with
  | 9 | 10 | 11 | 12 | 13 | 32 | 160 => true
  | _ => false
  end.

Fixpoint trim_start (s : string) : string :=
  match s with
  | String c rest => if is_white_space c then trim_start rest else s
  | EmptyString => EmptyString
  end.

Fixpoint rev_string (acc s : string) : string :=
  match s with
  | String c rest => rev_string (String c acc) rest
  | EmptyString => acc
  end.

(** [s.trim()] *)
Definition trim (s : string) : string :=
  rev_string "" (trim_start (rev_string "" (trim_start s))).

(** [hay.includes(needle)] *)
Fixpoint includes (hay needle : string) : bool :=
  if prefix needle hay then true
  else match hay with
       | String _ rest => includes rest needle
       | EmptyString => false
       end.

(** Truthiness of an optional string: [undefined] and [""] are falsy. *)
Definition truthy (s : option string) : bool :=
  match s with
  | Some (String _ _) => true
  | _ => false
  end.

(** [a ?? b] where [b] may itself be [undefined]. *)
Definition nullish {A : Type} (a b : option A) : option A :=
  match a with
  | Some x => Some x
  | None => b
  end.

(** [a ?? d] where [d] is a value. *)
Definition nullish_default {A : Type} (a : option A) (d : A) : A :=
  match a with
  | Some x => x
  | None => d
  end.

(** [a?.f] *)
Definition chain {A B : Type} (a : option A) (f : A -> option B) : option B :=
  match a with
  | Some x => f x
  | None => None
  end.

(** What a [throw] carries: an [Error] with its message, or some other
    value (for which [instanceof Error] is false). *)
Inductive Thrown : Type :=
| Error (message : string)
| NotAnError.

(** The completion of a call that may throw, or of an awaited promise. *)
Inductive Completion (A : Type) : Type :=
| Return (a : A)
| Throw (e : Thrown).

Arguments Return {A} a.
Arguments Throw {A} e.

(** The reasons of the promises that reject, in the order of the array. *)
Fixpoint rejections {A : Type} (promises : list (Completion A)) : list Thrown :=
  match promises with
  | [] => []
  | Return _ :: rest => rejections rest
  | Throw e :: rest => e :: rejections rest
  end.

(** The values of the promises that fulfil, in the order of the array. *)
Fixpoint fulfilments {A : Type} (promises : list (Completion A)) : list A :=
  match promises with
  | [] => []
  | Return a :: rest => a :: fulfilments rest
  | Throw _ :: rest => fulfilments rest
  end.

(** [await Promise.all(promises)]: the array of values when every promise
    fulfils, else the reason of the promise that rejects first in time.
    All the promises run concurrently, so which one that is belongs to the
    scheduling: [first] selects it among the rejections. *)
Definition Promise_all {A : Type} (first : nat) (promises : list (Completion A))
  : Completion (list A) :=
  match rejections promises with
  | [] => Return (fulfilments promises)
  | e :: es => Throw (nth (first mod length (e :: es)) (e :: es) e)
  end.

(** [items.map((item, offset) => f(offset, item))], offsets counted from
    [from]. *)
Fixpoint map_indexed {A B : Type} (f : nat -> A -> B) (from : nat) (items : list A)
  : list B :=
  match items with
  | [] => []
  | x :: rest => f from x :: map_indexed f (S from) rest
  end.

End Js.

Import Js.

Declare Scope js_scope.
Delimit Scope js_scope with js.
Infix "??" := nullish (at level 61, left associativity) : js_scope.
Infix "??!" := nullish_default (at level 61, left associativity) : js_scope.
Infix "?." := chain (at level 40, left associativity) : js_scope.
Local Open Scope js_scope.

(* ================================================================= *)
(** ** Data model *)

Record Location : Type := {
  lat : option Number;
  lng : option Number
}.

Record Geometry : Type := {
  location : option Location
}.

(** [TextSearchPlace]: one entry of a search page. *)
Record TextSearchPlace : Type := {
  place_id : string;
  ts_name : option string;
  ts_formatted_address : option string;
  ts_business_status : option string;
  ts_geometry : option Geometry;
  ts_types : option (list string)
}.

(** [PlaceDetails]: the payload of a detail lookup. *)
Record PlaceDetails : Type := {
  pd_name : option string;
  formatted_phone_number : option string;
  international_phone_number : option string;
  pd_formatted_address : option string;
  url : option string;
  pd_website : option string;
  pd_business_status : option string;
  pd_geometry : option Geometry;
  pd_types : option (list string)
}.

(** [PlaceRecord]: the unit of output. *)
Record PlaceRecord : Type := {
  name : string;
  formattedAddress : string;
  phoneNumber : option string;
  googleMapsUrl : option string;
  website : option string;
  latitude : option Number;
  longitude : option Number;
  businessStatus : option string;
  types : option (list string)
}.

Definition MAX_TOTAL_RESULTS : Number := of_Z 60.

(** The object [{}] that stands for absent details. *)
Definition no_details : PlaceDetails := {|
  pd_name := None;
  formatted_phone_number := None;
  international_phone_number := None;
  pd_formatted_address := None;
  url := None;
  pd_website := None;
  pd_business_status := None;
  pd_geometry := None;
  pd_types := None
|}.

(** The body of a search response. *)
Record SearchPayload : Type := {
  sp_status : string;
  sp_error_message : option string;
  results : list TextSearchPlace;
  next_page_token : option string
}.

(** The body of a detail response. *)
Record DetailsPayload : Type := {
  dp_status : string;
  dp_error_message : option string;
  dp_result : option PlaceDetails
}.

(** What the handler destructures from the body of the request; a field
    that is missing is [Undefined]. *)
Record RequestBody : Type := {
  req_apiKey : Value;
  req_query : Value;
  req_location : Value;
  req_maxResults : Value
}.

Inductive ResponseBody : Type :=
| Results (records : list PlaceRecord)   (* [{ results: records }] *)
| ErrorBody (error : string).            (* [{ error: message }] *)

(** What [NextResponse.json] sends back. *)
Record Response : Type := {
  status : Z;
  body : ResponseBody
}.

(* ================================================================= *)
(** ** The world outside the handler *)

(** The outcome of [await fetch(...)] followed by [await response.json()]:
    the request fails outright, or a response arrives with its [ok] flag
    and status code, whose body parses or does not. *)
Inductive Fetched (P : Type) : Type :=
| Rejected (e : Thrown)
| Responded (ok : bool) (code : Z) (json : Completion P).

Arguments Rejected {P} e.
Arguments Responded {P} ok code json.

(** The remote endpoints answer each request from its number (in the order
    the handler issues them) and its parameters; [first_settled] tells, for
    the chunk that starts at a given index, which rejection comes first. *)
Record World : Type := {
  text_search : nat -> string -> option string -> string -> Fetched SearchPayload;
  place_details : nat -> string -> string -> Fetched DetailsPayload;
  first_settled : nat -> nat
}.

(** What the handler does to the world, in order. *)
Inductive Event : Type :=
| Sleep (durationMs : Z)
| SearchRequest (n : nat) (query : string) (pagetoken : option string) (key : string)
| DetailsRequest (n : nat) (place_id key : string).

Definition quota_exceeded : string :=
  "Google Places quota exceeded. Wait before trying again or adjust your API usage.".

(** Whether the answer to a request the handler issued carries the
    business status [OVER_QUERY_LIMIT]. *)
Definition reports_quota (w : World) (ev : Event) : bool :=
  match ev with
  | Sleep _ => false
  | SearchRequest n query pagetoken key =>
      match text_search w n query pagetoken key with
      | Responded true _ (Return payload) =>
          sp_status payload =? "OVER_QUERY_LIMIT"
      | _ => false
      end
  | DetailsRequest n id key =>
      match place_details w n id key with
      | Responded true _ (Return payload) =>
          dp_status payload =? "OVER_QUERY_LIMIT"
      | _ => false
      end
  end.

Definition is_details_request (ev : Event) : bool :=
  match ev with
  | DetailsRequest _ _ _ => true
  | _ => false
  end.

(** [phone || undefined] *)
Definition or_undefined (s : string) : option string :=
  match s with
  | EmptyString => None
  | _ => Some s
  end.

Section Route.

(** Decimal notation of the finite doubles other than the whole numbers
    below [2^53] in magnitude. *)
Variable fractional : Q -> string.

Definition maps_search_url (la ln : Number) (id : string) : string :=
  ("https://www.google.com/maps/search/?api=1&query="
     ++ Number_toString fractional la ++ ","
     ++ Number_toString fractional ln
     ++ "&query_place_id=" ++ id)%string.

Definition toRecord (summary : TextSearchPlace) (details : option PlaceDetails)
  : PlaceRecord :=
  let source := details ??! no_details in
  let phone :=
    formatted_phone_number source ?? international_phone_number source ??! "" in
  let lat_ :=
    pd_geometry source ?. location ?. lat
      ?? ts_geometry summary ?. location ?. lat in
  let lng_ :=
    pd_geometry source ?. location ?. lng
      ?? ts_geometry summary ?. location ?. lng in
  let googleMapsUrl_ :=
    url source ??
      match lat_, lng_ with
      | Some la, Some ln => Some (maps_search_url la ln (place_id summary))
      | _, _ => None
      end in
  {| name := pd_name source ?? ts_name summary ??! "Unknown";
     formattedAddress :=
       pd_formatted_address source ?? ts_formatted_address summary
         ??! "Address unavailable";
     phoneNumber := or_undefined phone;
     googleMapsUrl := googleMapsUrl_;
     website := pd_website source ?? None;
     latitude := lat_;
     longitude := lng_;
     businessStatus := pd_business_status source ?? ts_business_status summary;
     types := pd_types source ?? ts_types summary |}.

Definition sanitizeMaxResults (raw : Value) : Number :=
  match typeof_number raw with
  | None => MAX_TOTAL_RESULTS
  | Some n =>
      if Number_isNaN n then MAX_TOTAL_RESULTS
      else Math_min MAX_TOTAL_RESULTS (Math_max (of_Z 1) (Math_floor n))
  end.

(* ----------------------------------------------------------------- *)
(** *** The two fetchers *)

Definition fetchPlaceDetails (w : World) (n : nat) (placeId apiKey : string)
  : Completion (option PlaceDetails) :=
  match place_details w n placeId apiKey with
  | Rejected e => Throw e
  | Responded ok _ json =>
      if negb ok then Return None
      else
        match json with
        | Throw e => Throw e
        | Return payload =>
            let status := dp_status payload in
            if status =? "OK" then Return (dp_result payload)
            else if (status =? "NOT_FOUND") || (status =? "ZERO_RESULTS")
            then Return None
            else if status =? "OVER_QUERY_LIMIT" then Throw (Error quota_exceeded)
            else
              Throw (Error (dp_error_message payload
                              ??! ("Google Places Details returned status "
                                     ++ status)%string))
        end
  end.

Definition fetchTextSearchPage (w : World) (n : nat) (query apiKey : string)
           (pageToken : option string) : Completion SearchPayload :=
  let pagetoken := if truthy pageToken then pageToken else None in
  match text_search w n query pagetoken apiKey with
  | Rejected e => Throw e
  | Responded ok code json =>
      if negb ok
      then Throw (Error ("Text search failed with status "
                           ++ NilZero.string_of_int (Z.to_int code))%string)
      else
        match json with
        | Throw e => Throw e
        | Return payload =>
            let status := sp_status payload in
            if (status =? "OK") || (status =? "ZERO_RESULTS") then Return payload
            else if status =? "OVER_QUERY_LIMIT" then Throw (Error quota_exceeded)
            else if (status =? "REQUEST_DENIED") || (status =? "INVALID_REQUEST")
            then Throw (Error (sp_error_message payload
                                 ??! ("Request denied: " ++ status)%string))
            else Throw (Error (sp_error_message payload
                                 ??! ("Unexpected status: " ++ status)%string))
        end
  end.

(* ----------------------------------------------------------------- *)
(** *** The route handler *)

(** The [do ... while] of [POST] that walks the search pages.  [page] counts
    the requests made so far; [None] means the loop is still running when
    [fuel] iterations have passed. *)
Fixpoint walk (fuel : nat) (w : World) (searchQuery apiKey : string)
         (cleanMaxResults : Number) (page : nat)
         (summaries : list TextSearchPlace) (pageToken : option string)
  : option (list Event * Completion (list TextSearchPlace)) :=
  match fuel with
  | O => None
  | S fuel' =>
      let pause := if truthy pageToken then [Sleep 2000] else [] in
      let pagetoken := if truthy pageToken then pageToken else None in
      let effects := pause ++ [SearchRequest page searchQuery pagetoken apiKey] in
      match fetchTextSearchPage w page searchQuery apiKey pageToken with
      | Throw e => Some (effects, Throw e)
      | Return payload =>
          let summaries' := summaries ++ results payload in
          let pageToken' := next_page_token payload in
          if truthy pageToken'
             && lt (of_nat (length summaries')) cleanMaxResults
             && lt (of_nat (length summaries')) MAX_TOTAL_RESULTS
          then
            match walk fuel' w searchQuery apiKey cleanMaxResults (S page)
                       summaries' pageToken' with
            | Some (later, outcome) => Some (effects ++ later, outcome)
            | None => None
            end
          else Some (effects, Return summaries')
      end
  end.

Definition chunkSize : nat := 5.

(** Whether the [catch] inside [chunk.map] throws the error again. *)
Definition rethrown (e : Thrown) : bool :=
  match e with
  | Error message =>
      includes message "quota exceeded" || includes message "Request denied"
  | NotAnError => false
  end.

(** The details a record is built from once its lookup has completed
    without aborting the chunk: a lookup that threw counts as absent. *)
Definition details_or_absent (lookup : Completion (option PlaceDetails))
  : option PlaceDetails :=
  match lookup with
  | Return details => details
  | Throw _ => None
  end.

(** The callback given to [chunk.map]; [n] is the number of the request. *)
Definition details_or_undefined (w : World) (apiKey : string) (n : nat)
           (summary : TextSearchPlace) : Completion (option PlaceDetails) :=
  match fetchPlaceDetails w n (place_id summary) apiKey with
  | Return details => Return details
  | Throw e => if rethrown e then Throw e else Return None
  end.

(** The record built for the summary whose lookup is request [n], when
    that lookup does not abort the run. *)
Definition record_of (w : World) (apiKey : string) (n : nat)
           (summary : TextSearchPlace) : PlaceRecord :=
  toRecord summary
           (details_or_absent (fetchPlaceDetails w n (place_id summary) apiKey)).

(** The [for] loop of [POST] over the chunks of [trimmedSummaries].  Every
    request of a chunk is issued before any of them is awaited. *)
Fixpoint enrich (fuel : nat) (w : World) (apiKey : string)
         (trimmedSummaries : list TextSearchPlace) (index : nat)
         (records : list PlaceRecord)
  : option (list Event * Completion (list PlaceRecord)) :=
  if (index <? length trimmedSummaries)%nat then
    match fuel with
    | O => None
    | S fuel' =>
        let chunk :=
          slice trimmedSummaries (of_nat index) (of_nat (index + chunkSize)) in
        let effects :=
          map_indexed (fun n summary => DetailsRequest n (place_id summary) apiKey)
                      index chunk in
        match Promise_all (first_settled w index)
                (map_indexed (details_or_undefined w apiKey) index chunk) with
        | Throw e => Some (effects, Throw e)
        | Return detailsList =>
            let records' :=
              records ++ map_indexed
                           (fun offset summary =>
                              toRecord summary (nth offset detailsList None))
                           0 chunk in
            match enrich fuel' w apiKey trimmedSummaries (index + chunkSize)
                         records' with
            | Some (later, outcome) => Some (effects ++ later, outcome)
            | None => None
            end
        end
    end
  else Some ([], Return records).

(** The [catch] of [POST]. *)
Definition internal_error (e : Thrown) : Response :=
  {| status := 500;
     body := ErrorBody match e with
                       | Error message => message
                       | NotAnError => "Unexpected error while searching for places."
                       end |}.

Definition bad_request (message : string) : Response :=
  {| status := 400; body := ErrorBody message |}.

(** The query sent to the search endpoint. *)
Definition searchQuery (query : string) (location_ : Value) : string :=
  match typeof_string location_ with
  | Some place =>
      if negb (trim place =? "") then (query ++ " in " ++ place)%string else query
  | None => query
  end.

(** The [try] block of [POST] from the point where the body of the
    request has been parsed and destructured.  The result is the list of
    effects together with the response, or [None] when the walk over the
    pages is still running after [fuel] pages. *)
Definition respond (fuel : nat) (w : World) (request : RequestBody)
  : option (list Event * Response) :=
  match typeof_string (req_apiKey request) with
  | None => Some ([], bad_request "API key is required.")
  | Some apiKey =>
  if trim apiKey =? "" then Some ([], bad_request "API key is required.") else
  match typeof_string (req_query request) with
  | None => Some ([], bad_request "Search keyword is required.")
  | Some query =>
  if trim query =? "" then Some ([], bad_request "Search keyword is required.") else
  let cleanMaxResults := sanitizeMaxResults (req_maxResults request) in
  let searchQuery := searchQuery query (req_location request) in
  match walk fuel w searchQuery apiKey cleanMaxResults 0 [] None with
  | None => None
  | Some (searching, Throw e) => Some (searching, internal_error e)
  | Some (searching, Return summaries) =>
      let trimmedSummaries := slice summaries (of_nat 0) cleanMaxResults in
      match enrich (length trimmedSummaries) w apiKey trimmedSummaries 0 [] with
      | None => None
      | Some (enriching, Throw e) => Some (searching ++ enriching, internal_error e)
      | Some (enriching, Return records) =>
          Some (searching ++ enriching, {| status := 200; body := Results records |})
      end
  end
  end
  end.

(** [POST].  [parsed] is how
    [const { apiKey, query, location, maxResults } = await request.json()]
    completes: it throws when the body is not JSON and when it is [null]
    (there is nothing to destructure), and the [catch] then answers
    without anything having been requested; otherwise it yields the four
    properties, [Undefined] for those the body does not have. *)
Definition POST (fuel : nat) (w : World) (parsed : Completion RequestBody)
  : option (list Event * Response) :=
  match parsed with
  | Throw e => Some ([], internal_error e)
  | Return request => respond fuel w request
  end.

End Route.

(* ================================================================= *)
(** ** Reading the effects of a run *)

(** The credential and the query of a request that passes the two checks
    at the head of [POST]: both are strings and neither is blank. *)
Definition credentials (request : RequestBody) : option (string * string) :=
  match typeof_string (req_apiKey request), typeof_string (req_query request) with
  | Some apiKey, Some query =>
      if (trim apiKey =? "") || (trim query =? "") then None
      else Some (apiKey, query)
  | _, _ => None
  end.

(** How the search request an effect stands for completes. *)
Definition search_outcome (w : World) (ev : Event)
  : option (Completion SearchPayload) :=
  match ev with
  | SearchRequest n query pagetoken key =>
      Some (fetchTextSearchPage w n query key pagetoken)
  | _ => None
  end.

(** The results of the page that answers a search request; nothing for
    any other effect and for a request that fails. *)
Definition page_results (w : World) (ev : Event) : list TextSearchPlace :=
  match search_outcome w ev with
  | Some (Return payload) => results payload
  | _ => []
  end.

(** The requests for the pages after the first one: each waits 2000 ms
    and carries a continuation token. *)
Fixpoint later_pages (query key : string) (page : nat) (tokens : list string)
  : list Event :=
  match tokens with
  | [] => []
  | token :: rest =>
      Sleep 2000 :: SearchRequest page query (Some token) key
        :: later_pages query key (S page) rest
  end.

(** The pauses and the search requests that the [do ... while] of [POST]
    has made once it has gone through [fuel] pages at most: all of them
    when it has ended by then, those made so far when it is still
    running. *)
Fixpoint requested (fuel : nat) (w : World) (searchQuery apiKey : string)
         (cleanMaxResults : Number) (page : nat)
         (summaries : list TextSearchPlace) (pageToken : option string)
  : list Event :=
  match fuel with
  | O => []
  | S fuel' =>
      let pause := if truthy pageToken then [Sleep 2000] else [] in
      let pagetoken := if truthy pageToken then pageToken else None in
      let effects := pause ++ [SearchRequest page searchQuery pagetoken apiKey] in
      match fetchTextSearchPage w page searchQuery apiKey pageToken with
      | Throw _ => effects
      | Return payload =>
          let summaries' := summaries ++ results payload in
          let pageToken' := next_page_token payload in
          if truthy pageToken'
             && lt (of_nat (length summaries')) cleanMaxResults
             && lt (of_nat (length summaries')) MAX_TOTAL_RESULTS
          then effects ++ requested fuel' w searchQuery apiKey cleanMaxResults
                                    (S page) summaries' pageToken'
          else effects
      end
  end.

(** The detail requests for the summaries of [items], numbered from
    [index]. *)
Definition details_requests (key : string) (index : nat)
           (items : list TextSearchPlace) : list Event :=
  map_indexed (fun n summary => DetailsRequest n (place_id summary) key)
              index items.

(* ================================================================= *)
(** ** The page that calls the route: [src/app/page.tsx] *)

Module Page.

(** The state of the [Home] component.  [results] is [None] when
    [setResults] was given [undefined]. *)
Record State : Type := {
  apiKey : string;
  searchTerm : string;
  location : string;
  maxResults : Number;
  isLoading : bool;
  error : option string;
  results : option (list PlaceRecord)
}.

(** The state the [useState] calls start from. *)
Definition initial : State :=
  {| apiKey := "";
     searchTerm := "";
     location := "";
     maxResults := of_Z 40;
     isLoading := false;
     error := None;
     results := Some [] |}.

(** [disabled]: the memo that greys the submit button out. *)
Definition disabled (st : State) : bool :=
  (trim (apiKey st) =? "") || (trim (searchTerm st) =? "").

(** The [disabled] attribute of the submit button. *)
Definition submit_button_disabled (st : State) : bool :=
  isLoading st || disabled st.

(** [n || d] on numbers: [0] and [NaN] are falsy. *)
Definition number_or (n d : Number) : Number :=
  match n with
  | NaN => d
  | Fin q => if Qeq_bool q (inject_Z 0) then d else n
  | _ => n
  end.

(** What the [onChange] of the "Max Results" input stores, from the number
    that [Number(event.target.value)] yields. *)
Definition onChange_maxResults (typed : Number) : Number :=
  Math_min (of_Z 60) (Math_max (of_Z 1) (number_or typed (of_Z 1))).

(** [JSON.stringify] followed by the [request.json()] of the route, on a
    number: what is not finite travels as [null]. *)
Definition json_number (n : Number) : Value :=
  match n with
  | Fin q => Num (Fin q)
  | _ => Null
  end.

(** The body [handleSubmit] posts, as the route reads it. *)
Definition request_body (st : State) : RequestBody :=
  {| req_apiKey := Str (apiKey st);
     req_query := Str (searchTerm st);
     req_location := Str (location st);
     req_maxResults := json_number (maxResults st) |}.

(** [response.ok] *)
Definition ok (response : Response) : bool :=
  ((200 <=? status response) && (status response <=? 299))%Z.

(** The state once [handleSubmit] has run to its end, from what
    [await fetch("/api/search", ...)] completes with. *)
Definition handleSubmit (st : State) (fetched : Completion Response) : State :=
  let attempt : Completion (option (list PlaceRecord)) :=
    match fetched with
    | Throw e => Throw e
    | Return response =>
        if negb (ok response)
        then Throw (Error match body response with
                          | ErrorBody message => message
                          | Results _ => "Search failed"
                          end)
        else Return match body response with
                    | Results records => Some records
                    | ErrorBody _ => None
                    end
    end in
  match attempt with
  | Return records =>
      {| apiKey := apiKey st;
         searchTerm := searchTerm st;
         location := location st;
         maxResults := maxResults st;
         isLoading := false;
         error := None;
         results := records |}
  | Throw err =>
      {| apiKey := apiKey st;
         searchTerm := searchTerm st;
         location := location st;
         maxResults := maxResults st;
         isLoading := false;
         error := Some match err with
                       | Error message => message
                       | NotAnError => "Unexpected error"
                       end;
         results := Some [] |}
  end.

End Page.

(* ================================================================= *)
(** ** The normalizer as the specification words it *)

(** A field counts, in the words of the specification, when it is
    present and non-empty. *)
Definition present_non_empty (s : option string) : option string :=
  match s with
  | Some EmptyString => None
  | other => other
  end.

(** "name: detail.name, else summary.name, else the sentinel", each taken
    only when present and non-empty. *)
Definition spec_name (summary : TextSearchPlace) (details : option PlaceDetails)
  : string :=
  match present_non_empty (details ?. pd_name) with
  | Some n => n
  | None =>
      match present_non_empty (ts_name summary) with
      | Some n => n
      | None => "Unknown"
      end
  end.

(** "phone: detail.phone1, else detail.phone2, else absent", each taken
    only when present and non-empty. *)
Definition spec_phone (details : option PlaceDetails) : option string :=
  match present_non_empty (details ?. formatted_phone_number) with
  | Some p => Some p
  | None => present_non_empty (details ?. international_phone_number)
  end.

(** The two coordinates a geometry holds, as a pair. *)
Definition coordinates (g : option Geometry) : option Number * option Number :=
  (g ?. location ?. lat, g ?. location ?. lng).

(** "latitude and longitude never come from different sources": the pair
    of the record is the pair of the details or the pair of the summary
    (which also covers the case where both are absent). *)
Definition from_one_source (r : PlaceRecord) (summary : TextSearchPlace)
           (details : option PlaceDetails) : Prop :=
  (latitude r, longitude r) = coordinates (details ?. pd_geometry)
  \/ (latitude r, longitude r) = coordinates (ts_geometry summary).

(* ----------------------------------------------------------------- *)
(** *** Sample inputs *)

Module Sample.

(** A notation for fractional numbers, for the samples that need none. *)
Definition no_fractions : Q -> string := fun _ => "".

Definition summary (id : string) (nm : option string) (g : option Geometry)
  : TextSearchPlace :=
  {| place_id := id;
     ts_name := nm;
     ts_formatted_address := None;
     ts_business_status := None;
     ts_geometry := g;
     ts_types := None |}.

Definition at_ (la ln : option Z) : option Geometry :=
  Some {| location := Some {| lat := option_map of_Z la;
                              lng := option_map of_Z ln |} |}.

Definition summary_A : TextSearchPlace := summary "p1" (Some "A") None.

(** A summary located at latitude 5, longitude 6. *)
Definition summary_at_5_6 : TextSearchPlace :=
  summary "p1" None (at_ (Some 5%Z) (Some 6%Z)).

Definition details_named (nm : option string) : PlaceDetails :=
  {| pd_name := nm;
     formatted_phone_number := None;
     international_phone_number := None;
     pd_formatted_address := None;
     url := None;
     pd_website := None;
     pd_business_status := None;
     pd_geometry := None;
     pd_types := None |}.

Definition details_phones (phone1 phone2 : option string) : PlaceDetails :=
  {| pd_name := None;
     formatted_phone_number := phone1;
     international_phone_number := phone2;
     pd_formatted_address := None;
     url := None;
     pd_website := None;
     pd_business_status := None;
     pd_geometry := None;
     pd_types := None |}.

Definition details_at (g : option Geometry) : PlaceDetails :=
  {| pd_name := None;
     formatted_phone_number := None;
     international_phone_number := None;
     pd_formatted_address := None;
     url := None;
     pd_website := None;
     pd_business_status := None;
     pd_geometry := g;
     pd_types := None |}.

(** Details whose location holds the latitude 1 and no longitude. *)
Definition details_lat_only : PlaceDetails := details_at (at_ (Some 1%Z) None).

Definition ok_page (items : list TextSearchPlace) (token : option string)
  : SearchPayload :=
  {| sp_status := "OK";
     sp_error_message := None;
     results := items;
     next_page_token := token |}.

Definition no_match : SearchPayload :=
  {| sp_status := "ZERO_RESULTS";
     sp_error_message := None;
     results := [];
     next_page_token := None |}.

Definition found (d : PlaceDetails) : DetailsPayload :=
  {| dp_status := "OK"; dp_error_message := None; dp_result := Some d |}.

Definition failed (business_status : string) (message : option string)
  : DetailsPayload :=
  {| dp_status := business_status;
     dp_error_message := message;
     dp_result := None |}.

(** A world whose search endpoint answers every request with [page] and
    whose detail endpoint answers request [n] with [answers n], both over
    HTTP 200; the first rejection of a chunk, in array order, settles
    first. *)
Definition world (page : SearchPayload) (answers : nat -> DetailsPayload) : World :=
  {| text_search := fun _ _ _ _ => Responded true 200 (Return page);
     place_details := fun n _ _ => Responded true 200 (Return (answers n));
     first_settled := fun _ => 0 |}.

Definition request (cap : Value) : RequestBody :=
  {| req_apiKey := Str "key";
     req_query := Str "coffee";
     req_location := Undefined;
     req_maxResults := cap |}.

Definition a_and_b : list TextSearchPlace :=
  [summary "a" (Some "A") None; summary "b" (Some "B") None].

(** The first lookup fails with a message that holds "Request denied",
    the second one reports [OVER_QUERY_LIMIT]. *)
Definition two_failures : World :=
  world (ok_page a_and_b None)
        (fun n => match n with
                  | 0 => failed "UNKNOWN_ERROR" (Some "Request denied for this project.")
                  | _ => failed "OVER_QUERY_LIMIT" None
                  end).

(** The first lookup succeeds, the second one fails without harm. *)
Definition one_harmless_failure : World :=
  world (ok_page a_and_b None)
        (fun n => match n with
                  | 0 => found (details_named (Some "Cafe A"))
                  | _ => failed "UNKNOWN_ERROR" None
                  end).

(** Every lookup reports [OVER_QUERY_LIMIT]. *)
Definition out_of_quota : World :=
  world (ok_page a_and_b None) (fun _ => failed "OVER_QUERY_LIMIT" None).

(** The detail endpoint denies access, with the message the remote
    service gives for a bad key. *)
Definition access_denied : World :=
  world (ok_page [summary_A] None)
        (fun _ => failed "REQUEST_DENIED" (Some "The provided API key is invalid.")).

(** A single page of 61 results. *)
Definition big_page : World :=
  world (ok_page (repeat (summary "p" None None) 61) None)
        (fun _ => failed "NOT_FOUND" None).

Definition nothing_found : World :=
  world no_match (fun _ => failed "NOT_FOUND" None).

End Sample.

(** Further worlds, requests and page states. *)
Module Scenario.

Import Sample.

(** A request whose credential is blank. *)
Definition blank_key : RequestBody :=
  {| req_apiKey := Str "   ";
     req_query := Str "coffee";
     req_location := Undefined;
     req_maxResults := Undefined |}.

(** The search endpoint has two pages of one result; no place has
    details. *)
Definition two_pages : World :=
  {| text_search :=
       fun n _ _ _ =>
         match n with
         | 0 => Responded true 200
                  (Return (ok_page [summary "a" (Some "A") None] (Some "next")))
         | _ => Responded true 200
                  (Return (ok_page [summary "b" (Some "B") None] None))
         end;
     place_details := fun _ _ _ => Responded true 200 (Return (failed "NOT_FOUND" None));
     first_settled := fun _ => 0 |}.

(** The search endpoint answers every request with an empty page and a
    continuation token. *)
Definition endless : World :=
  world (ok_page [] (Some "next")) (fun _ => failed "NOT_FOUND" None).

(** The search endpoint reports that the quota is spent. *)
Definition search_out_of_quota : World :=
  world {| sp_status := "OVER_QUERY_LIMIT";
           sp_error_message := None;
           results := [];
           next_page_token := None |}
        (fun _ => failed "NOT_FOUND" None).

(** The search endpoint answers with HTTP 503. *)
Definition search_down : World :=
  {| text_search := fun _ _ _ _ => Responded false 503 (Throw NotAnError);
     place_details := fun _ _ _ => Responded true 200 (Return (failed "NOT_FOUND" None));
     first_settled := fun _ => 0 |}.

(** The detail endpoint answers with HTTP 503. *)
Definition details_down : World :=
  {| text_search := fun _ _ _ _ => Responded true 200 (Return (ok_page a_and_b None));
     place_details := fun _ _ _ => Responded false 503 (Throw NotAnError);
     first_settled := fun _ => 0 |}.

(** The form, filled in. *)
Definition filled_form : Page.State :=
  {| Page.apiKey := "key";
     Page.searchTerm := "coffee";
     Page.location := "";
     Page.maxResults := of_Z 40;
     Page.isLoading := true;
     Page.error := None;
     Page.results := Some [] |}.

End Scenario.

(* ================================================================= *)
(** ** Properties of the normalizer and of the sanitation *)

Section NormalizerProperties.

Variable fractional : Q -> string.

(** C3, as the code has it.  The name of a record is the name of the
    details when the details are there and carry a name, else the name of
    the summary when it carries one, else ["Unknown"]; a name that is
    present counts even when it is the empty string, so the name of the
    record is empty exactly when the name so chosen is empty. *)
Theorem C3_name_is_first_present_name :
  forall (summary : TextSearchPlace) (details : option PlaceDetails),
    let r := toRecord fractional summary details in
    name r = match details ?. pd_name, ts_name summary with
             | Some n, _ => n
             | None, Some n => n
             | None, None => "Unknown"
             end
    /\ (name r = ""
        <-> details ?. pd_name = Some ""
            \/ (details ?. pd_name = None /\ ts_name summary = Some "")).
Proof.
  intros summary details r; subst r.
  destruct details as [d|]; cbn;
    [destruct (pd_name d) as [n|]; cbn|];
    destruct (ts_name summary) as [m|]; cbn;
    (split; [reflexivity|]); split; intros H.
  all: try (left; congruence).
  all: try (right; split; congruence).
  all: try discriminate.
  all: destruct H as [H|[H1 H2]]; congruence.
Qed.

(** C5, as the code has it.  The phone of a record is decided by the
    details alone: the primary number when it is present, else the
    secondary number when that is present, and the number so chosen is
    dropped when it is the empty string.  The summary plays no part. *)
Theorem C5_phone_from_details_only :
  forall (summary : TextSearchPlace) (details : option PlaceDetails),
    phoneNumber (toRecord fractional summary details)
    = match details ?. formatted_phone_number,
            details ?. international_phone_number with
      | Some p, _ => present_non_empty (Some p)
      | None, Some p => present_non_empty (Some p)
      | None, None => None
      end
    /\ forall other : TextSearchPlace,
         phoneNumber (toRecord fractional other details)
         = phoneNumber (toRecord fractional summary details).
Proof.
  intros summary details; split; [|reflexivity].
  destruct details as [d|]; cbn; [|reflexivity].
  destruct (formatted_phone_number d) as [[|c p]|]; cbn; try reflexivity.
  destruct (international_phone_number d) as [[|c p]|]; reflexivity.
Qed.

(** C6, as the code has it.  Latitude and longitude fall back one by one:
    each is the value of the details when the details hold it, else the
    value of the summary.  When the details hold both, the pair is the pair
    of the details; when they hold neither, it is the pair of the summary;
    in both cases the two come from one source. *)
Theorem C6_coordinates_fall_back_one_by_one :
  forall (summary : TextSearchPlace) (details : option PlaceDetails),
    let r := toRecord fractional summary details in
    let d := coordinates (details ?. pd_geometry) in
    let s := coordinates (ts_geometry summary) in
    latitude r = fst d ?? fst s
    /\ longitude r = snd d ?? snd s
    /\ match d with
       | (Some _, Some _) => (latitude r, longitude r) = d
       | (None, None) => (latitude r, longitude r) = s
       | _ => True
       end
    /\ match d with
       | (Some _, Some _) | (None, None) => from_one_source r summary details
       | _ => True
       end.
Proof.
  intros summary details r d s; subst r d s.
  unfold from_one_source, coordinates.
  destruct details as [pd|]; cbn.
  - destruct (pd_geometry pd) as [[[[la ln]|]]|]; cbn;
      [destruct la, ln; cbn| |]; repeat split; auto.
  - repeat split; auto.
Qed.

Lemma string_app_assoc (a b c : string) :
  ((a ++ b) ++ c = a ++ (b ++ c))%string.
Proof. induction a as [|x a IH]; cbn; [reflexivity | now rewrite IH]. Qed.

Lemma prefix_app (needle rest : string) :
  prefix needle (needle ++ rest)%string = true.
Proof.
  induction needle as [|x needle IH]; cbn; [now destruct rest|].
  destruct (ascii_dec x x); [exact IH | contradiction].
Qed.

Lemma includes_unfold (hay needle : string) :
  includes hay needle
  = if prefix needle hay then true
    else match hay with
         | String _ rest => includes rest needle
         | EmptyString => false
         end.
Proof. destruct hay; reflexivity. Qed.

Lemma includes_here (needle rest : string) :
  includes (needle ++ rest)%string needle = true.
Proof. now rewrite includes_unfold, prefix_app. Qed.

Lemma includes_app_l (pre hay needle : string) :
  includes hay needle = true -> includes (pre ++ hay)%string needle = true.
Proof.
  intros H. induction pre as [|x pre IH]; cbn [append]; [exact H|].
  rewrite includes_unfold, IH. now destruct (prefix needle _).
Qed.

Lemma string_app_nil_r (s : string) : (s ++ "")%string = s.
Proof. induction s as [|x s IH]; cbn; [reflexivity | now rewrite IH]. Qed.

Lemma includes_refl (s : string) : includes s s = true.
Proof.
  pose proof (includes_here s "") as H. now rewrite string_app_nil_r in H.
Qed.

(** C8.  The map URL of a record is the canonical URL of the details when
    they carry one; otherwise, when the merged latitude and longitude are
    both there, it is the map-search URL: the fixed head, the text of the
    latitude, a comma, the text of the longitude, the query_place_id
    parameter and the identifier of the summary; otherwise it is absent.
    The URL built always holds the two coordinates joined by a comma and
    the identifier; whole numbers below 2^53 in magnitude are written in
    decimal digits, so for latitude 1, longitude 2 and identifier ["p1"]
    the URL is [...query=1,2&query_place_id=p1], which holds ["1,2"] and
    ["p1"]. *)
Theorem C8_map_url :
  forall (summary : TextSearchPlace) (details : option PlaceDetails),
    let r := toRecord fractional summary details in
    let text := Number_toString fractional in
    googleMapsUrl r
    = match details ?. url, latitude r, longitude r with
      | Some canonical, _, _ => Some canonical
      | None, Some la, Some ln =>
          Some ("https://www.google.com/maps/search/?api=1&query="
                  ++ text la ++ "," ++ text ln
                  ++ "&query_place_id=" ++ place_id summary)%string
      | None, _, _ => None
      end
    /\ (forall (la ln : Number) (id : string),
          includes (maps_search_url fractional la ln id)
                   (text la ++ "," ++ text ln)%string = true
          /\ includes (maps_search_url fractional la ln id) id = true)
    /\ (forall z : Z,
          (Z.abs z < 2 ^ 53)%Z ->
          text (of_Z z) = NilZero.string_of_int (Z.to_int z))
    /\ maps_search_url fractional (of_Z 1) (of_Z 2) "p1"
       = "https://www.google.com/maps/search/?api=1&query=1,2&query_place_id=p1"%string
    /\ includes (maps_search_url fractional (of_Z 1) (of_Z 2) "p1") "1,2" = true
    /\ includes (maps_search_url fractional (of_Z 1) (of_Z 2) "p1") "p1" = true.
Proof.
  intros summary details r text; subst r text.
  split; [|split; [|split; [|split; [|split]]]]; try reflexivity.
  - destruct details as [d|]; cbn.
    + destruct (url d); reflexivity.
    + reflexivity.
  - intros la ln id. unfold maps_search_url. split.
    + apply includes_app_l.
      replace (Number_toString fractional la ++ "," ++ Number_toString fractional ln
                 ++ "&query_place_id=" ++ id)%string
        with ((Number_toString fractional la ++ ","
                 ++ Number_toString fractional ln)
                ++ "&query_place_id=" ++ id)%string
        by now rewrite !string_app_assoc.
      apply includes_here.
    + do 4 apply includes_app_l.
      apply (includes_app_l "&query_place_id=").
      apply includes_refl.
  - intros z Hz. unfold Number_toString, of_Z.
    rewrite Qfloor_Z.
    replace (Qeq_bool (inject_Z z) (inject_Z z)) with true
      by (symmetry; apply Qeq_bool_iff; reflexivity).
    replace (Z.abs z <? 2 ^ 53)%Z with true
      by (symmetry; apply Z.ltb_lt; exact Hz).
    reflexivity.
Qed.

Lemma Qle_bool_inject_Z (a b : Z) :
  Qle_bool (inject_Z a) (inject_Z b) = (a <=? b)%Z.
Proof.
  unfold Qle_bool, inject_Z; cbn. now rewrite !Z.mul_1_r.
Qed.

(** What [sanitizeMaxResults] makes of a finite number. *)
Lemma sanitizeMaxResults_finite (q : Q) :
  sanitizeMaxResults (Num (Fin q)) = of_Z (Z.min 60 (Z.max 1 (Qfloor q))).
Proof.
  unfold sanitizeMaxResults, MAX_TOTAL_RESULTS, of_Z; cbn.
  rewrite Qle_bool_inject_Z.
  destruct (1 <=? Qfloor q)%Z eqn:H1; rewrite Qle_bool_inject_Z.
  - apply Z.leb_le in H1.
    destruct (60 <=? Qfloor q)%Z eqn:H2;
      [apply Z.leb_le in H2 | apply Z.leb_gt in H2];
      do 2 f_equal; lia.
  - apply Z.leb_gt in H1. cbn. do 2 f_equal. lia.
Qed.

(** The result of [sanitizeMaxResults] is always a whole number from 1 to 60. *)
Lemma sanitizeMaxResults_range (raw : Value) :
  exists z : Z, sanitizeMaxResults raw = of_Z z /\ (1 <= z <= 60)%Z.
Proof.
  destruct raw as [| | b | [| | | q] | s |];
    try (exists 60%Z; split; [reflexivity | lia]).
  - exists 1%Z; split; [reflexivity | lia].
  - rewrite sanitizeMaxResults_finite. eexists; split; [reflexivity | lia].
Qed.

(** C9.  [sanitizeMaxResults] is idempotent and always yields a whole
    number from 1 to 60: 60 for what is not a number and for [NaN], and
    for a number its floor clamped to the range (so 60 for [Infinity] and
    1 for [-Infinity]). *)
Theorem C9_sanitizeMaxResults :
  forall raw : Value,
    let r := sanitizeMaxResults raw in
    sanitizeMaxResults (Num r) = r
    /\ (exists z : Z, r = of_Z z /\ (1 <= z <= 60)%Z)
    /\ match raw with
       | Num NaN => r = of_Z 60
       | Num PosInf => r = of_Z 60
       | Num NegInf => r = of_Z 1
       | Num (Fin q) => r = of_Z (Z.min 60 (Z.max 1 (Qfloor q)))
       | _ => r = of_Z 60
       end.
Proof.
  intros raw r; subst r.
  split; [|split].
  - destruct (sanitizeMaxResults_range raw) as (z & -> & Hz).
    unfold of_Z. rewrite sanitizeMaxResults_finite, Qfloor_Z.
    unfold of_Z. do 2 f_equal. lia.
  - apply sanitizeMaxResults_range.
  - destruct raw as [| | b | [| | | q] | s |]; try reflexivity.
    apply sanitizeMaxResults_finite.
Qed.

End NormalizerProperties.

(* ================================================================= *)
(** ** Facts about the JavaScript fragment *)

Module JsFacts.

Lemma ToIntegerOrInfinity_of_Z (z : Z) : ToIntegerOrInfinity (of_Z z) = Integer z.
Proof. cbn. now rewrite Z.quot_1_r. Qed.

Lemma relative_index_of_nat (len a : nat) :
  relative_index len (Integer (Z.of_nat a)) = Nat.min a len.
Proof.
  unfold relative_index.
  destruct (Z.of_nat a <? 0)%Z eqn:H; [apply Z.ltb_lt in H; lia|].
  lia.
Qed.

Lemma slice_of_nat {A : Type} (items : list A) (a b : nat) :
  slice items (of_nat a) (of_nat b)
  = firstn (Nat.min b (length items) - Nat.min a (length items))
           (skipn (Nat.min a (length items)) items).
Proof.
  unfold slice, of_nat.
  now rewrite !ToIntegerOrInfinity_of_Z, !relative_index_of_nat.
Qed.

(** A chunk that starts inside the array is the next [n] items. *)
Lemma slice_chunk {A : Type} (items : list A) (index n : nat) :
  index < length items ->
  slice items (of_nat index) (of_nat (index + n)) = firstn n (skipn index items).
Proof.
  intros H. rewrite slice_of_nat.
  replace (Nat.min index (length items)) with index by lia.
  destruct (Nat.le_gt_cases (index + n) (length items)) as [Hle|Hgt].
  - f_equal. lia.
  - replace (Nat.min (index + n) (length items)) with (length items) by lia.
    rewrite !firstn_all2; trivial; rewrite length_skipn; lia.
Qed.

(** Trimming to a whole, non-negative cap keeps the first [cap] items. *)
Lemma slice_cap {A : Type} (items : list A) (z : Z) :
  (0 <= z)%Z ->
  slice items (of_nat 0) (of_Z z) = firstn (Z.to_nat z) items.
Proof.
  intros Hz. unfold slice, of_nat.
  rewrite !ToIntegerOrInfinity_of_Z, relative_index_of_nat.
  unfold relative_index.
  replace (z <? 0)%Z with false by (symmetry; apply Z.ltb_ge; lia).
  cbn [Nat.min skipn]. rewrite Nat.sub_0_r.
  destruct (Z.le_gt_cases z (Z.of_nat (length items))) as [Hle|Hgt].
  - now rewrite Z.min_l by lia.
  - rewrite Z.min_r by lia. rewrite Nat2Z.id.
    rewrite !firstn_all2; trivial; lia.
Qed.

Lemma lt_of_nat_of_Z (n : nat) (z : Z) :
  lt (of_nat n) (of_Z z) = (Z.of_nat n <? z)%Z.
Proof.
  unfold lt, of_nat, of_Z, Qle_bool, inject_Z; cbn.
  rewrite !Z.mul_1_r. now rewrite Z.ltb_antisym.
Qed.

Lemma map_indexed_length {A B : Type} (f : nat -> A -> B) (items : list A) :
  forall from, length (map_indexed f from items) = length items.
Proof. induction items; intros; cbn; auto. Qed.

Lemma map_indexed_app {A B : Type} (f : nat -> A -> B) (xs ys : list A) :
  forall from,
    map_indexed f from (xs ++ ys)
    = map_indexed f from xs ++ map_indexed f (from + length xs) ys.
Proof.
  induction xs as [|x xs IH]; intros from; cbn.
  - now rewrite Nat.add_0_r.
  - rewrite IH. do 3 f_equal. lia.
Qed.

Lemma map_indexed_ext {A B : Type} (f g : nat -> A -> B) (items : list A) :
  forall from,
    (forall j x, nth_error items j = Some x -> f (from + j) x = g (from + j) x) ->
    map_indexed f from items = map_indexed g from items.
Proof.
  induction items as [|x xs IH]; intros from H; cbn; trivial.
  f_equal.
  - specialize (H 0 x eq_refl). now rewrite Nat.add_0_r in H.
  - apply IH. intros j y Hj.
    specialize (H (S j) y Hj). now rewrite Nat.add_succ_r in H.
Qed.

Lemma nth_error_map_indexed {A B : Type} (f : nat -> A -> B) (items : list A) :
  forall from j,
    nth_error (map_indexed f from items) j
    = option_map (f (from + j)) (nth_error items j).
Proof.
  induction items as [|x xs IH]; intros from [|j]; cbn; trivial.
  - now rewrite Nat.add_0_r.
  - rewrite IH. now rewrite Nat.add_succ_r.
Qed.

Lemma In_map_indexed {A B : Type} (f : nat -> A -> B) (items : list A) (y : B) :
  forall from,
    In y (map_indexed f from items)
    <-> exists j x, nth_error items j = Some x /\ y = f (from + j) x.
Proof.
  intros from; split.
  - intros H. apply In_nth_error in H as [j Hj].
    rewrite nth_error_map_indexed in Hj.
    destruct (nth_error items j) as [x|] eqn:E; [|discriminate].
    exists j, x. split; trivial. now inversion Hj.
  - intros (j & x & Hj & ->).
    apply nth_error_In with j.
    now rewrite nth_error_map_indexed, Hj.
Qed.

(** [Promise.all] rejects exactly when one of its promises does, and then
    with the reason of one of them. *)
Lemma rejections_In {A : Type} (promises : list (Completion A)) (e : Thrown) :
  In e (rejections promises) <-> In (Throw e) promises.
Proof.
  induction promises as [|[a|e'] rest IH]; cbn.
  - tauto.
  - rewrite IH. split; [auto | intros [H|H]; [discriminate | trivial]].
  - rewrite IH. split; intros [H|H]; auto; left; congruence.
Qed.

Lemma Promise_all_Throw {A : Type} (first : nat) (promises : list (Completion A))
      (e : Thrown) :
  Promise_all first promises = Throw e -> In (Throw e) promises.
Proof.
  unfold Promise_all.
  destruct (rejections promises) as [|e0 es] eqn:E; [discriminate|].
  intros H.
  assert (H' : nth (first mod length (e0 :: es)) (e0 :: es) e0 = e) by congruence.
  apply rejections_In. rewrite E, <- H'.
  apply nth_In. apply Nat.mod_upper_bound. discriminate.
Qed.

Lemma Promise_all_Return {A : Type} (first : nat) (promises : list (Completion A))
      (values : list A) :
  Promise_all first promises = Return values ->
  rejections promises = [] /\ values = fulfilments promises.
Proof.
  unfold Promise_all.
  destruct (rejections promises); [|discriminate].
  intros H. now inversion H.
Qed.

Lemma Promise_all_rejects {A : Type} (first : nat) (promises : list (Completion A))
      (e : Thrown) :
  In (Throw e) promises -> exists e', Promise_all first promises = Throw e'.
Proof.
  intros H. apply rejections_In in H. unfold Promise_all.
  destruct (rejections promises); [contradiction | eauto].
Qed.

(** When every promise fulfils, the values come back one for one. *)
Lemma Promise_all_fulfils {A B : Type} (first : nat) (f : nat -> A -> Completion B)
      (g : nat -> A -> B) (items : list A) :
  forall from,
    (forall j x, nth_error items j = Some x -> f (from + j) x = Return (g (from + j) x)) ->
    Promise_all first (map_indexed f from items) = Return (map_indexed g from items).
Proof.
  intros from H. unfold Promise_all.
  assert (E : rejections (map_indexed f from items) = []
              /\ fulfilments (map_indexed f from items) = map_indexed g from items).
  { revert from H. induction items as [|x xs IH]; intros from H; cbn; auto.
    pose proof (H 0 x eq_refl) as H0. rewrite Nat.add_0_r in H0. rewrite H0.
    destruct (IH (S from)) as [E1 E2].
    - intros j y Hj. specialize (H (S j) y Hj).
      now rewrite Nat.add_succ_r in H.
    - now rewrite E1, E2. }
  destruct E as [-> ->]. reflexivity.
Qed.

End JsFacts.

(* ================================================================= *)
(** ** Properties of the pipeline *)

Section PipelineProperties.

Import JsFacts.

Local Open Scope nat_scope.

Variable fractional : Q -> string.

(* ----------------------------------------------------------------- *)
(** *** The fetchers under a quota report *)

Lemma fetchPlaceDetails_quota (w : World) (n : nat) (id key : string) :
  reports_quota w (DetailsRequest n id key) = true ->
  fetchPlaceDetails w n id key = Throw (Error quota_exceeded).
Proof.
  unfold reports_quota, fetchPlaceDetails.
  destruct (place_details w n id key) as [e|[|] code [payload|e]];
    try discriminate.
  intros H. apply String.eqb_eq in H. cbn. now rewrite H.
Qed.

Lemma fetchTextSearchPage_quota (w : World) (n : nat) (query key : string)
      (pageToken : option string) :
  reports_quota w (SearchRequest n query
                     (if truthy pageToken then pageToken else None) key) = true ->
  fetchTextSearchPage w n query key pageToken = Throw (Error quota_exceeded).
Proof.
  unfold reports_quota, fetchTextSearchPage.
  destruct (text_search w n query _ key) as [e|[|] code [payload|e]];
    try discriminate.
  intros H. apply String.eqb_eq in H. cbn. now rewrite H.
Qed.

Lemma rethrown_quota_exceeded : rethrown (Error quota_exceeded) = true.
Proof. reflexivity. Qed.

(** What the callback of [chunk.map] throws, it throws again from
    [fetchPlaceDetails], and it is an [Error] whose message holds one of
    the two marks. *)
Lemma details_or_undefined_Throw (w : World) (key : string) (n : nat)
      (summary : TextSearchPlace) (e : Thrown) :
  details_or_undefined w key n summary = Throw e ->
  exists message,
    e = Error message
    /\ rethrown e = true
    /\ fetchPlaceDetails w n (place_id summary) key = Throw e.
Proof.
  unfold details_or_undefined.
  destruct (fetchPlaceDetails w n (place_id summary) key) as [d|e0];
    [discriminate|].
  destruct (rethrown e0) eqn:R; [|discriminate].
  intros H. inversion H; subst e0.
  destruct e as [message|]; [|discriminate].
  exists message. auto.
Qed.

(** When nothing is thrown again, the callback yields the details, or
    [undefined] in place of what was thrown. *)
Lemma details_or_undefined_Return (w : World) (key : string) (n : nat)
      (summary : TextSearchPlace) :
  (forall e, fetchPlaceDetails w n (place_id summary) key = Throw e ->
             rethrown e = false) ->
  details_or_undefined w key n summary
  = Return (details_or_absent (fetchPlaceDetails w n (place_id summary) key)).
Proof.
  unfold details_or_undefined. intros H.
  destruct (fetchPlaceDetails w n (place_id summary) key) as [d|e]; trivial.
  now rewrite (H e eq_refl).
Qed.

(* ----------------------------------------------------------------- *)
(** *** The chunked enrichment *)

Lemma nth_error_chunk {A : Type} (items : list A) (index n j : nat) (x : A) :
  nth_error (firstn n (skipn index items)) j = Some x ->
  nth_error items (index + j) = Some x.
Proof.
  intros H.
  destruct (Nat.lt_ge_cases j n) as [Hlt|Hge].
  - rewrite nth_error_firstn in H.
    replace (j <? n) with true in H by (symmetry; now apply Nat.ltb_lt).
    now rewrite nth_error_skipn in H.
  - assert (L : length (firstn n (skipn index items)) <= j)
      by (rewrite length_firstn; lia).
    apply nth_error_None in L. congruence.
Qed.

(** The records pushed for a chunk, read off the list of details by
    offset, are the records of its summaries by request number. *)
Lemma records_of_chunk (w : World) (key : string) (chunk : list TextSearchPlace)
      (index : nat) :
  map_indexed
    (fun offset summary =>
       toRecord fractional summary
         (nth offset
              (map_indexed
                 (fun n s => details_or_absent (fetchPlaceDetails w n (place_id s) key))
                 index chunk)
              None))
    0 chunk
  = map_indexed (record_of fractional w key) index chunk.
Proof.
  apply nth_error_ext. intros j.
  rewrite !nth_error_map_indexed.
  destruct (nth_error chunk j) as [x|] eqn:E; cbn; trivial.
  unfold record_of. do 2 f_equal.
  apply nth_error_nth.
  now rewrite nth_error_map_indexed, E.
Qed.

Lemma map_indexed_chunks {B : Type} (f : nat -> TextSearchPlace -> B)
      (items : list TextSearchPlace) (index : nat) :
  map_indexed f index (skipn index items)
  = map_indexed f index (firstn chunkSize (skipn index items))
    ++ map_indexed f (index + chunkSize) (skipn (index + chunkSize) items).
Proof.
  rewrite <- (firstn_skipn chunkSize (skipn index items)) at 1.
  rewrite map_indexed_app, skipn_skipn, (Nat.add_comm chunkSize index).
  f_equal.
  destruct (Nat.le_gt_cases (length items) (index + chunkSize)) as [Hle|Hgt].
  - now rewrite (skipn_all2 items Hle).
  - rewrite length_firstn, length_skipn. f_equal. lia.
Qed.

(** When no lookup throws an error that is thrown again, the loop runs to
    its end and pushes the record of every summary from [index] on. *)
Lemma enrich_completes (w : World) (key : string) (items : list TextSearchPlace) :
  (forall n summary,
      nth_error items n = Some summary ->
      forall e, fetchPlaceDetails w n (place_id summary) key = Throw e ->
                rethrown e = false) ->
  forall fuel index records,
    length items - index <= fuel ->
    exists effects,
      enrich fractional fuel w key items index records
      = Some (effects,
              Return (records
                        ++ map_indexed (record_of fractional w key) index
                             (skipn index items))).
Proof.
  intros Hquiet. induction fuel as [|fuel IH]; intros index records Hfuel;
    cbn [enrich]; destruct (index <? length items) eqn:E.
  - apply Nat.ltb_lt in E. lia.
  - apply Nat.ltb_ge in E. exists [].
    now rewrite skipn_all2, app_nil_r.
  - apply Nat.ltb_lt in E. rewrite slice_chunk by trivial.
    rewrite (Promise_all_fulfils _ _
               (fun n s => details_or_absent (fetchPlaceDetails w n (place_id s) key))).
    + rewrite records_of_chunk.
      destruct (IH (index + chunkSize)
                   (records ++ map_indexed (record_of fractional w key) index
                              (firstn chunkSize (skipn index items))))
        as [later ->]; [unfold chunkSize; lia|].
      eexists. now rewrite <- app_assoc, <- map_indexed_chunks.
    + intros j x Hj. apply details_or_undefined_Return.
      apply Hquiet. now apply nth_error_chunk in Hj.
  - apply Nat.ltb_ge in E. exists [].
    now rewrite skipn_all2, app_nil_r.
Qed.

(** The loop never stops for lack of fuel when it is given the length of
    the array. *)
Lemma enrich_terminates (w : World) (key : string) (items : list TextSearchPlace) :
  forall fuel index records,
    length items - index <= fuel ->
    enrich fractional fuel w key items index records <> None.
Proof.
  induction fuel as [|fuel IH]; intros index records Hfuel;
    cbn [enrich]; destruct (index <? length items) eqn:E; try discriminate.
  - apply Nat.ltb_lt in E. lia.
  - destruct (Promise_all _ _); [|discriminate].
    match goal with
    | |- context [enrich fractional fuel w key items ?i ?r] =>
        specialize (IH i r); destruct (enrich fractional fuel w key items i r)
          as [[later outcome]|]
    end; [discriminate|].
    apply IH. unfold chunkSize. apply Nat.ltb_lt in E. lia.
Qed.

(** The loop aborts only with an error that a lookup it issued has thrown
    and that the callback throws again. *)
Lemma enrich_Throw (w : World) (key : string) (items : list TextSearchPlace) :
  forall fuel index records effects e,
    enrich fractional fuel w key items index records = Some (effects, Throw e) ->
    exists message n id,
      e = Error message
      /\ rethrown e = true
      /\ In (DetailsRequest n id key) effects
      /\ fetchPlaceDetails w n id key = Throw e.
Proof.
  induction fuel as [|fuel IH]; intros index records effects e;
    cbn [enrich]; destruct (index <? length items) eqn:E; try discriminate.
  destruct (Promise_all _ _) as [detailsList|e0] eqn:P.
  - match goal with
    | |- context [enrich fractional fuel w key items ?i ?r] =>
        specialize (IH i r);
          destruct (enrich fractional fuel w key items i r)
          as [[later outcome]|]
    end; [|discriminate].
    intros H. inversion H; subst.
    destruct (IH later e eq_refl) as (m & n & id & ? & ? & ? & ?).
    exists m, n, id. repeat split; trivial. apply in_or_app. now right.
  - intros H. inversion H; subst. clear H.
    apply Promise_all_Throw in P.
    apply In_map_indexed in P as (j & x & Hj & Hx).
    symmetry in Hx. apply details_or_undefined_Throw in Hx as (m & ? & ? & ?).
    exists m, (index + j), (place_id x). repeat split; trivial.
    apply In_map_indexed. eauto.
Qed.

(** A lookup that reports [OVER_QUERY_LIMIT] aborts the loop. *)
Lemma enrich_quota (w : World) (key : string) (items : list TextSearchPlace) :
  forall fuel index records effects outcome,
    enrich fractional fuel w key items index records = Some (effects, outcome) ->
    existsb (reports_quota w) effects = true ->
    exists e, outcome = Throw e.
Proof.
  induction fuel as [|fuel IH]; intros index records effects outcome;
    cbn [enrich]; destruct (index <? length items) eqn:E; try discriminate;
    try (intros H; inversion H; subst; discriminate).
  destruct (Promise_all _ _) as [detailsList|e0] eqn:P.
  - match goal with
    | |- context [enrich fractional fuel w key items ?i ?r] =>
        specialize (IH i r);
          destruct (enrich fractional fuel w key items i r)
          as [[later outcome']|]
    end; [|discriminate].
    intros H Hq. inversion H; subst. clear H.
    rewrite existsb_app in Hq. apply orb_true_iff in Hq as [Hq|Hq].
    + exfalso.
      apply existsb_exists in Hq as (ev & Hev & Hq).
      apply In_map_indexed in Hev as (j & x & Hj & ->).
      apply fetchPlaceDetails_quota in Hq.
      assert (T : In (Throw (Error quota_exceeded))
                     (map_indexed (details_or_undefined w key) index
                        (slice items (of_nat index) (of_nat (index + chunkSize))))).
      { apply In_map_indexed. exists j, x. split; trivial.
        unfold details_or_undefined. now rewrite Hq. }
      apply (Promise_all_rejects (first_settled w index)) in T as [e' T].
      congruence.
    + now apply (IH later outcome).
  - intros H _. inversion H. eauto.
Qed.

Lemma enrich_effects (w : World) (key : string) (items : list TextSearchPlace) :
  forall fuel index records effects outcome,
    enrich fractional fuel w key items index records = Some (effects, outcome) ->
    forallb is_details_request effects = true.
Proof.
  induction fuel as [|fuel IH]; intros index records effects outcome;
    cbn [enrich]; destruct (index <? length items) eqn:E; try discriminate;
    try (intros H; inversion H; subst; reflexivity).
  assert (D : forall chunk,
             forallb is_details_request
               (map_indexed (fun n s => DetailsRequest n (place_id s) key)
                            index chunk) = true).
  { intros chunk. apply forallb_forall. intros ev Hev.
    apply In_map_indexed in Hev as (j & x & _ & ->). reflexivity. }
  destruct (Promise_all _ _) as [detailsList|e0].
  - match goal with
    | |- context [enrich fractional fuel w key items ?i ?r] =>
        specialize (IH i r);
          destruct (enrich fractional fuel w key items i r)
          as [[later outcome']|]
    end; [|discriminate].
    intros H. inversion H; subst.
    rewrite forallb_app, D. now apply (IH later outcome).
  - intros H. inversion H; subst. apply D.
Qed.

(* ----------------------------------------------------------------- *)
(** *** The walk over the search pages *)

Lemma page_effects_quota (w : World) (pageToken : option string) (ev : Event) :
  existsb (reports_quota w)
          ((if truthy pageToken then [Sleep 2000] else []) ++ [ev])
  = reports_quota w ev.
Proof. destruct (truthy pageToken); cbn; now rewrite orb_false_r. Qed.

(** A search page that reports [OVER_QUERY_LIMIT] ends the walk with the
    quota error. *)
Lemma walk_quota (w : World) (query key : string) (cap : Number) :
  forall fuel page summaries pageToken effects outcome,
    walk fuel w query key cap page summaries pageToken = Some (effects, outcome) ->
    existsb (reports_quota w) effects = true ->
    outcome = Throw (Error quota_exceeded).
Proof.
  induction fuel as [|fuel IH]; intros page summaries pageToken effects outcome;
    cbn [walk]; [discriminate|].
  destruct (fetchTextSearchPage w page query key pageToken) as [payload|e] eqn:F.
  - destruct (truthy (next_page_token payload) && _ && _).
    + destruct (walk fuel w query key cap (S page) _ _)
        as [[later outcome']|] eqn:W; [|discriminate].
      intros H Hq. inversion H; subst. clear H.
      rewrite existsb_app, page_effects_quota in Hq.
      apply orb_true_iff in Hq as [Hq|Hq].
      * apply fetchTextSearchPage_quota in Hq. congruence.
      * now apply (IH _ _ _ _ _ W).
    + intros H Hq. inversion H; subst. clear H.
      rewrite page_effects_quota in Hq.
      apply fetchTextSearchPage_quota in Hq. congruence.
  - intros H Hq. inversion H; subst. clear H.
    rewrite page_effects_quota in Hq.
    apply fetchTextSearchPage_quota in Hq. congruence.
Qed.

(** Whatever the walk collects is what it held when it asked for its last
    page, followed by that page; and unless that was the first page, it
    then held fewer summaries than the cap and than the ceiling. *)
Lemma walk_bound (w : World) (query key : string) (z : Z) :
  forall fuel page summaries pageToken effects collected,
    walk fuel w query key (of_Z z) page summaries pageToken
    = Some (effects, Return collected) ->
    exists before last_page,
      collected = before ++ last_page
      /\ (before = summaries
          \/ (Z.of_nat (length before) < z /\ Z.of_nat (length before) < 60))%Z.
Proof.
  induction fuel as [|fuel IH]; intros page summaries pageToken effects collected;
    cbn [walk]; [discriminate|].
  destruct (fetchTextSearchPage w page query key pageToken) as [payload|e];
    [|discriminate].
  unfold MAX_TOTAL_RESULTS. rewrite !lt_of_nat_of_Z.
  destruct (truthy (next_page_token payload) && _ && _) eqn:C.
  - destruct (walk fuel w query key (of_Z z) (S page) _ _)
      as [[later outcome']|] eqn:W; [|discriminate].
    intros H. inversion H; subst. clear H.
    apply IH in W as (before & last_page & -> & Hb).
    exists before, last_page. split; trivial. right.
    destruct Hb as [->|Hb]; trivial.
    apply andb_true_iff in C as [C C60]. apply andb_true_iff in C as [_ Cz].
    apply Z.ltb_lt in C60, Cz. auto.
  - intros H. inversion H; subst. eauto.
Qed.

(* ----------------------------------------------------------------- *)
(** *** The claims on the pipeline *)

(** C1.  Given the trimmed summaries, and whatever the detail lookups
    answer as long as none throws an error that is thrown again (one whose
    message holds "quota exceeded" or "Request denied"), the batching loop
    runs to its end and returns exactly one record per summary, in the
    order of the summaries: the record at each position is the merge of
    the summary at that position with its details, absent when its lookup
    failed. *)
Theorem C1_one_record_per_summary_in_order :
  forall (w : World) (apiKey : string) (trimmedSummaries : list TextSearchPlace)
         (fuel : nat),
    length trimmedSummaries <= fuel ->
    (forall n summary,
        nth_error trimmedSummaries n = Some summary ->
        forall e, fetchPlaceDetails w n (place_id summary) apiKey = Throw e ->
                  rethrown e = false) ->
    exists effects records,
      enrich fractional fuel w apiKey trimmedSummaries 0 []
      = Some (effects, Return records)
      /\ length records = length trimmedSummaries
      /\ forall n,
           nth_error records n
           = option_map
               (fun summary =>
                  toRecord fractional summary
                    (details_or_absent
                       (fetchPlaceDetails w n (place_id summary) apiKey)))
               (nth_error trimmedSummaries n).
Proof.
  intros w apiKey trimmedSummaries fuel Hfuel Hquiet.
  destruct (enrich_completes w apiKey trimmedSummaries Hquiet fuel 0 [])
    as [effects E]; [lia|].
  cbn [skipn app] in E.
  exists effects, (map_indexed (record_of fractional w apiKey) 0 trimmedSummaries).
  split; [exact E|]. split.
  - apply map_indexed_length.
  - intros n. now rewrite nth_error_map_indexed.
Qed.

(** C10.  For a request with a credential and a query that are strings
    and not blank, when the first search request is answered (over a
    successful HTTP response) with status [ZERO_RESULTS], no results and no
    continuation token, the handler makes that one request and nothing
    else (no detail lookup) and answers with status 200 and an empty list
    of results. *)
Theorem C10_zero_results_is_an_empty_success :
  forall (fuel : nat) (w : World) (request : RequestBody)
         (apiKey query : string) (code : Z) (payload : SearchPayload),
    req_apiKey request = Str apiKey ->
    trim apiKey <> ""%string ->
    req_query request = Str query ->
    trim query <> ""%string ->
    text_search w 0 (searchQuery query (req_location request)) None apiKey
    = Responded true code (Return payload) ->
    sp_status payload = "ZERO_RESULTS"%string ->
    results payload = [] ->
    next_page_token payload = None ->
    POST fractional (S fuel) w (Return request)
    = Some ([SearchRequest 0 (searchQuery query (req_location request)) None apiKey],
            {| status := 200; body := Results [] |}).
Proof.
  intros fuel w request apiKey query code payload
         Hkey Hk Hquery Hq Hsearch Hstatus Hresults Htoken.
  cbv beta iota delta [POST respond]. rewrite Hkey, Hquery. cbn [typeof_string].
  apply String.eqb_neq in Hk, Hq. rewrite Hk, Hq.
  cbn [walk]. unfold fetchTextSearchPage. cbn [truthy].
  rewrite Hsearch. cbn [negb]. rewrite Hstatus. cbn -[slice enrich].
  rewrite Hresults, Htoken. cbn -[slice enrich].
  assert (E : slice (@nil TextSearchPlace) (of_nat 0)
                    (sanitizeMaxResults (req_maxResults request)) = []).
  { unfold slice. now rewrite skipn_nil, firstn_nil. }
  rewrite E. reflexivity.
Qed.

End PipelineProperties.

(* ================================================================= *)
(** ** The claims at sample inputs *)

Import Sample.

(** A run of the batching loop over two summaries, the second of whose
    lookups fails with a status that is not thrown again. *)
Lemma C1_witness :
  exists effects records,
    enrich no_fractions 2 one_harmless_failure "key" a_and_b 0 []
    = Some (effects, Return records)
    /\ length records = length a_and_b
    /\ forall n,
         nth_error records n
         = option_map
             (fun summary =>
                toRecord no_fractions summary
                  (details_or_absent
                     (fetchPlaceDetails one_harmless_failure n
                                        (place_id summary) "key")))
             (nth_error a_and_b n).
Proof.
  apply (C1_one_record_per_summary_in_order
           no_fractions one_harmless_failure "key" a_and_b 2).
  - cbn. lia.
  - intros n summary Hn e He.
    destruct n as [|[|n]]; cbn in Hn.
    + inversion Hn; subst. vm_compute in He. discriminate.
    + inversion Hn; subst. vm_compute in He. inversion He. reflexivity.
    + destruct n; discriminate.
Defined.

(** The run the claim C2 fails on: in one chunk, the lookup that settles
    first fails with a message holding "Request denied" while another one
    reports [OVER_QUERY_LIMIT]; the caller gets the former message, not the
    quota message. *)
Lemma C2_counterexample :
  POST no_fractions 1 two_failures (Return (request Undefined))
  = Some ([SearchRequest 0 "coffee" None "key";
           DetailsRequest 0 "a" "key"; DetailsRequest 1 "b" "key"],
          {| status := 500;
             body := ErrorBody "Request denied for this project." |})
  /\ reports_quota two_failures (DetailsRequest 1 "b" "key") = true
  /\ "Request denied for this project."%string <> quota_exceeded.
Proof.
  split; [vm_compute; reflexivity|].
  split; [vm_compute; reflexivity|].
  unfold quota_exceeded. discriminate.
Qed.

(** The input the claim C3 fails on: the details carry the empty string
    as name, the summary the name ["A"]; the record is named [""], where
    the claim has ["A"]. *)
Lemma C3_counterexample :
  name (toRecord no_fractions summary_A (Some (details_named (Some ""))))
  = ""%string
  /\ spec_name summary_A (Some (details_named (Some ""))) = "A"%string
  /\ name (toRecord no_fractions summary_A (Some (details_named (Some ""))))
     <> spec_name summary_A (Some (details_named (Some ""))).
Proof.
  split; [reflexivity|]. split; [reflexivity|]. cbn. discriminate.
Qed.

(** The walk the claim C4 fails on: the search endpoint answers the first
    request with a page of 61 results, and [summaries] holds 61 entries. *)
Lemma C4_counterexample :
  walk 1 big_page "coffee" "key" (sanitizeMaxResults Undefined) 0 [] None
  = Some ([SearchRequest 0 "coffee" None "key"],
          Return (repeat (summary "p" None None) 61))
  /\ length (repeat (summary "p" None None) 61) = 61
  /\ 60 < 61.
Proof.
  split; [vm_compute; reflexivity|]. split; [reflexivity | lia].
Qed.

(** The input the claim C5 fails on: the primary number is the empty
    string and the secondary one is not; the record has no phone, where the
    claim has the secondary number. *)
Lemma C5_counterexample :
  phoneNumber (toRecord no_fractions summary_A
                 (Some (details_phones (Some "") (Some "+1 512 555 0100"))))
  = None
  /\ spec_phone (Some (details_phones (Some "") (Some "+1 512 555 0100")))
     = Some "+1 512 555 0100"%string.
Proof. split; reflexivity. Qed.

(** The input the claim C6 fails on: the details hold a latitude only,
    the summary holds both coordinates; the record takes its latitude from
    the details and its longitude from the summary. *)
Lemma C6_counterexample :
  latitude (toRecord no_fractions summary_at_5_6 (Some details_lat_only))
  = Some (of_Z 1)
  /\ longitude (toRecord no_fractions summary_at_5_6 (Some details_lat_only))
     = Some (of_Z 6)
  /\ ~ from_one_source
         (toRecord no_fractions summary_at_5_6 (Some details_lat_only))
         summary_at_5_6 (Some details_lat_only).
Proof.
  split; [reflexivity|]. split; [reflexivity|].
  unfold from_one_source. cbn. intros [H|H]; discriminate.
Qed.

(** A detail lookup answered with [REQUEST_DENIED] throws an error whose
    message holds neither of the marks the callback looks for, unless the
    remote message happens to; the callback then yields [undefined]. *)
Lemma request_denied_without_marks_is_absorbed :
  forall (w : World) (key : string) (n : nat) (s : TextSearchPlace)
         (code : Z) (payload : DetailsPayload),
    place_details w n (place_id s) key = Responded true code (Return payload) ->
    dp_status payload = "REQUEST_DENIED"%string ->
    rethrown (Error (dp_error_message payload
                       ??! "Google Places Details returned status REQUEST_DENIED"))
    = false ->
    details_or_undefined w key n s = Return None.
Proof.
  intros w key n s code payload Hw Hs Hr.
  unfold details_or_undefined, fetchPlaceDetails.
  rewrite Hw. cbn [negb]. rewrite Hs. cbn -[rethrown]. now rewrite Hr.
Qed.

(** C7, on the code.  The detail endpoint answers the only lookup of a run
    with [REQUEST_DENIED]; the error [fetchPlaceDetails] throws is not
    thrown again, and the handler answers with status 200 and one record,
    built without details. *)
Theorem C7_request_denied_is_absorbed :
  POST no_fractions 1 access_denied (Return (request Undefined))
  = Some ([SearchRequest 0 "coffee" None "key"; DetailsRequest 0 "p1" "key"],
          {| status := 200;
             body := Results [toRecord no_fractions summary_A None] |})
  /\ fetchPlaceDetails access_denied 0 "p1" "key"
     = Throw (Error "The provided API key is invalid.")
  /\ rethrown (Error "The provided API key is invalid.") = false.
Proof. repeat split; vm_compute; reflexivity. Qed.

(** A search that finds nothing. *)
Lemma C10_witness :
  POST no_fractions 1 nothing_found (Return (request Undefined))
  = Some ([SearchRequest 0 (searchQuery "coffee" Undefined) None "key"],
          {| status := 200; body := Results [] |}).
Proof.
  apply (C10_zero_results_is_an_empty_success
           no_fractions 0 nothing_found (request Undefined)
           "key" "coffee" 200 no_match);
    try reflexivity; vm_compute; discriminate.
Defined.

(* ================================================================= *)
(** ** Further properties of the route *)

Section RunProperties.

Import JsFacts.

Local Open Scope nat_scope.

Variable fractional : Q -> string.

(* ----------------------------------------------------------------- *)
(** *** The checks at the head of the handler *)

(** Past its two checks, [POST] is the walk followed by the enrichment. *)
Lemma POST_accepted (fuel : nat) (w : World) (request : RequestBody)
      (apiKey query : string) :
  credentials request = Some (apiKey, query) ->
  POST fractional fuel w (Return request)
  = match walk fuel w (searchQuery query (req_location request)) apiKey
               (sanitizeMaxResults (req_maxResults request)) 0 [] None with
    | None => None
    | Some (searching, Throw e) => Some (searching, internal_error e)
    | Some (searching, Return summaries) =>
        let trimmedSummaries :=
          slice summaries (of_nat 0)
                (sanitizeMaxResults (req_maxResults request)) in
        match enrich fractional (length trimmedSummaries) w apiKey
                     trimmedSummaries 0 [] with
        | None => None
        | Some (enriching, Throw e) =>
            Some (searching ++ enriching, internal_error e)
        | Some (enriching, Return records) =>
            Some (searching ++ enriching,
                  {| status := 200; body := Results records |})
        end
    end.
Proof.
  cbv beta iota delta [credentials POST respond].
  destruct (typeof_string (req_apiKey request)) as [k|]; [|discriminate].
  destruct (typeof_string (req_query request)) as [q|]; [|discriminate].
  destruct (String.eqb (trim k) ""); [discriminate|].
  destruct (String.eqb (trim q) ""); [discriminate|].
  cbn. intros H. inversion H; subst. reflexivity.
Qed.

(** Short of its two checks, [POST] answers at once. *)
Lemma POST_refused (fuel : nat) (w : World) (request : RequestBody) :
  credentials request = None ->
  exists message,
    POST fractional fuel w (Return request) = Some ([], bad_request message).
Proof.
  cbv beta iota delta [credentials POST respond].
  destruct (typeof_string (req_apiKey request)) as [k|]; [|eauto].
  destruct (String.eqb (trim k) ""); [eauto|].
  destruct (typeof_string (req_query request)) as [q|]; [|eauto].
  destruct (String.eqb (trim q) ""); [eauto | discriminate].
Qed.

(** X1.  A request whose credential or query is not a string, or is
    blank, is answered with status 400 whatever the world and the fuel,
    and without any effect: no request leaves the handler.  The message
    names the credential when that is what is missing, else the query. *)
Theorem X1_invalid_request_is_refused_without_effect :
  forall (fuel : nat) (w : World) (request : RequestBody),
    credentials request = None ->
    POST fractional fuel w (Return request)
    = Some ([], {| status := 400;
                   body := ErrorBody
                             match typeof_string (req_apiKey request) with
                             | Some apiKey =>
                                 if String.eqb (trim apiKey) ""
                                 then "API key is required."
                                 else "Search keyword is required."
                             | None => "API key is required."
                             end |}).
Proof.
  intros fuel w request. cbv beta iota delta [credentials POST respond].
  destruct (typeof_string (req_apiKey request)) as [k|]; [|reflexivity].
  destruct (String.eqb (trim k) ""); [reflexivity|].
  destruct (typeof_string (req_query request)) as [q|]; [|reflexivity].
  destruct (String.eqb (trim q) ""); [reflexivity | discriminate].
Qed.

(** The walk issues search requests and pauses only. *)
Lemma walk_effects (w : World) (query key : string) (cap : Number) :
  forall fuel page summaries pageToken effects outcome,
    walk fuel w query key cap page summaries pageToken = Some (effects, outcome) ->
    effects <> [] /\ existsb is_details_request effects = false.
Proof.
  induction fuel as [|fuel IH]; intros page summaries pageToken effects outcome;
    cbn [walk]; [discriminate|].
  assert (P : forall ev rest,
             (if truthy pageToken then [Sleep 2000] else []) ++ ev :: rest <> [])
    by (intros ev rest; destruct (truthy pageToken); discriminate).
  assert (D : existsb is_details_request
                ((if truthy pageToken then [Sleep 2000] else [])
                   ++ [SearchRequest page query
                         (if truthy pageToken then pageToken else None) key])
              = false)
    by (destruct (truthy pageToken); reflexivity).
  destruct (fetchTextSearchPage w page query key pageToken) as [payload|e].
  - destruct (truthy (next_page_token payload) && _ && _).
    + destruct (walk fuel w query key cap (S page) _ _)
        as [[later outcome']|] eqn:W; [|discriminate].
      intros H. inversion H; subst. clear H.
      apply IH in W as [_ W]. split.
      * rewrite <- app_assoc. apply P.
      * now rewrite existsb_app, D, W.
    + intros H. inversion H; subst. split; [apply P | apply D].
  - intros H. inversion H; subst. split; [apply P | apply D].
Qed.


(* ----------------------------------------------------------------- *)
(** *** The walk over the search pages, read from its effects *)

Lemma sent_token_idempotent (pageToken : option string) :
  (if truthy (if truthy pageToken then pageToken else None)
   then (if truthy pageToken then pageToken else None)
   else None)
  = (if truthy pageToken then pageToken else None).
Proof. destruct pageToken as [[|c s]|]; reflexivity. Qed.

(** The request in the trace completes as the call that made it. *)
Lemma search_outcome_of_request (w : World) (page : nat) (query key : string)
      (pageToken : option string) :
  search_outcome w (SearchRequest page query
                      (if truthy pageToken then pageToken else None) key)
  = Some (fetchTextSearchPage w page query key pageToken).
Proof.
  cbn. unfold fetchTextSearchPage. now rewrite sent_token_idempotent.
Qed.

Lemma walk_shape (w : World) (query key : string) (cap : Number) :
  forall fuel page summaries pageToken effects outcome,
    walk fuel w query key cap page summaries pageToken = Some (effects, outcome) ->
    exists tokens,
      effects
      = (if truthy pageToken then [Sleep 2000] else [])
          ++ SearchRequest page query
               (if truthy pageToken then pageToken else None) key
          :: later_pages query key (S page) tokens
      /\ Forall (fun token => token <> ""%string) tokens.
Proof.
  induction fuel as [|fuel IH]; intros page summaries pageToken effects outcome;
    cbn [walk]; [discriminate|].
  destruct (fetchTextSearchPage w page query key pageToken) as [payload|e].
  - destruct (truthy (next_page_token payload)) eqn:T; cbn [andb].
    + destruct (lt _ cap && _).
      * destruct (walk fuel w query key cap (S page) _ _)
          as [[later outcome']|] eqn:W; [|discriminate].
        intros H. inversion H; subst. clear H.
        apply IH in W as (tokens & -> & F).
        rewrite T.
        destruct (next_page_token payload) as [[|c token]|]; try discriminate.
        exists (String c token :: tokens). split.
        -- now rewrite <- app_assoc.
        -- constructor; [discriminate | trivial].
      * intros H. inversion H; subst. exists []. split; [reflexivity | constructor].
    + intros H. inversion H; subst. exists []. split; [reflexivity | constructor].
  - intros H. inversion H; subst. exists []. split; [reflexivity | constructor].
Qed.

Lemma page_effects_results (w : World) (page : nat) (query key : string)
      (pageToken : option string) :
  flat_map (page_results w)
           ((if truthy pageToken then [Sleep 2000] else [])
              ++ [SearchRequest page query
                    (if truthy pageToken then pageToken else None) key])
  = match fetchTextSearchPage w page query key pageToken with
    | Return payload => results payload
    | Throw _ => []
    end.
Proof.
  rewrite flat_map_app. cbn [flat_map].
  unfold page_results at 2. rewrite search_outcome_of_request, app_nil_r.
  destruct (truthy pageToken); cbn; trivial.
Qed.

(** What the walk returns is what it started with followed by the results
    of the pages it fetched, in the order of its requests. *)
Lemma walk_collects (w : World) (query key : string) (cap : Number) :
  forall fuel page summaries pageToken effects collected,
    walk fuel w query key cap page summaries pageToken
    = Some (effects, Return collected) ->
    collected = summaries ++ flat_map (page_results w) effects.
Proof.
  induction fuel as [|fuel IH]; intros page summaries pageToken effects collected;
    cbn [walk]; [discriminate|].
  pose proof (page_effects_results w page query key pageToken) as R.
  destruct (fetchTextSearchPage w page query key pageToken) as [payload|e];
    [|discriminate].
  destruct (truthy (next_page_token payload) && _ && _).
  - destruct (walk fuel w query key cap (S page) _ _)
      as [[later outcome']|] eqn:W; [|discriminate].
    intros H. inversion H; subst. clear H.
    apply IH in W as ->. now rewrite flat_map_app, R, app_assoc.
  - intros H. inversion H; subst. now rewrite R.
Qed.

(** A page that fails ends the walk with what it threw. *)
Lemma walk_failure (w : World) (query key : string) (cap : Number) :
  forall fuel page summaries pageToken effects outcome ev e,
    walk fuel w query key cap page summaries pageToken = Some (effects, outcome) ->
    In ev effects ->
    search_outcome w ev = Some (Throw e) ->
    outcome = Throw e.
Proof.
  induction fuel as [|fuel IH];
    intros page summaries pageToken effects outcome ev e;
    cbn [walk]; [discriminate|].
  pose proof (search_outcome_of_request w page query key pageToken) as R.
  assert (P : In ev ((if truthy pageToken then [Sleep 2000] else [])
                       ++ [SearchRequest page query
                             (if truthy pageToken then pageToken else None) key]) ->
              search_outcome w ev = Some (Throw e) ->
              fetchTextSearchPage w page query key pageToken = Throw e).
  { intros I O. apply in_app_or in I as [I|[<-|[]]].
    - destruct (truthy pageToken); [destruct I as [<-|[]]; discriminate | destruct I].
    - congruence. }
  destruct (fetchTextSearchPage w page query key pageToken) as [payload|e0].
  - destruct (truthy (next_page_token payload) && _ && _).
    + destruct (walk fuel w query key cap (S page) _ _)
        as [[later outcome']|] eqn:W; [|discriminate].
      intros H I O. inversion H; subst. clear H.
      apply in_app_or in I as [I|I].
      * specialize (P I O). discriminate.
      * now apply (IH _ _ _ _ _ _ _ W I O).
    + intros H I O. inversion H; subst. specialize (P I O). discriminate.
  - intros H I O. inversion H; subst. specialize (P I O). congruence.
Qed.

(** X3.  The effects of a run on an accepted request have one shape: a
    first search request, without token, for the composed query; then, for
    every further page, a pause of 2000 ms followed by the request for
    that page, numbered in sequence and carrying a non-empty continuation
    token, always with the same query and credential; then detail requests
    only.  No search request follows a detail request, and no page after
    the first is requested without the pause just before it. *)
Theorem X3_shape_of_a_run :
  forall (fuel : nat) (w : World) (request : RequestBody) (apiKey query : string)
         (effects : list Event) (response : Response),
    credentials request = Some (apiKey, query) ->
    POST fractional fuel w (Return request) = Some (effects, response) ->
    exists tokens lookups,
      effects
      = SearchRequest 0 (searchQuery query (req_location request)) None apiKey
          :: later_pages (searchQuery query (req_location request)) apiKey 1 tokens
          ++ lookups
      /\ Forall (fun token => token <> ""%string) tokens
      /\ forallb is_details_request lookups = true.
Proof.
  intros fuel w request apiKey query effects response C H.
  rewrite (POST_accepted _ _ _ _ _ C) in H.
  destruct (walk fuel w _ apiKey _ 0 [] None)
    as [[searching [summaries|e]]|] eqn:W; [| |discriminate];
    destruct (walk_shape _ _ _ _ _ _ _ _ _ _ W) as (tokens & -> & F);
    cbn [truthy app] in *.
  - cbn zeta in H.
    destruct (enrich fractional _ w apiKey _ 0 [])
      as [[enriching outcome]|] eqn:En; [|discriminate].
    pose proof (enrich_effects _ _ _ _ _ _ _ _ _ En) as D.
    exists tokens, enriching.
    destruct outcome; inversion H; subst; auto.
  - inversion H; subst. exists tokens, []. now rewrite app_nil_r.
Qed.

(** X4.  The summaries the walk hands over are the results of the pages
    it fetched, put end to end in the order of the requests; nothing is
    dropped, repeated or reordered before the trim. *)
Theorem X4_pages_are_concatenated_in_order :
  forall (fuel : nat) (w : World) (query key : string) (cap : Number)
         (effects : list Event) (summaries : list TextSearchPlace),
    walk fuel w query key cap 0 [] None = Some (effects, Return summaries) ->
    summaries = flat_map (page_results w) effects.
Proof.
  intros fuel w query key cap effects summaries W.
  now apply walk_collects in W.
Qed.

(** What a walk that has ended made is what it had made by then. *)
Lemma walk_requested (w : World) (query key : string) (cap : Number) :
  forall fuel page summaries pageToken effects outcome,
    walk fuel w query key cap page summaries pageToken = Some (effects, outcome) ->
    requested fuel w query key cap page summaries pageToken = effects.
Proof.
  induction fuel as [|fuel IH]; intros page summaries pageToken effects outcome;
    cbn [walk requested]; [discriminate|].
  destruct (fetchTextSearchPage w page query key pageToken) as [payload|e].
  - destruct (truthy (next_page_token payload) && _ && _).
    + destruct (walk fuel w query key cap (S page) _ _)
        as [[later outcome']|] eqn:W; [|discriminate].
      intros H. inversion H; subst. now rewrite (IH _ _ _ _ _ W).
    + intros H. now inversion H.
  - intros H. now inversion H.
Qed.

(** As soon as one of the requests made so far has failed, the walk has
    ended, with what that request threw. *)
Lemma walk_fails_at (w : World) (query key : string) (cap : Number) :
  forall fuel page summaries pageToken ev e,
    In ev (requested fuel w query key cap page summaries pageToken) ->
    search_outcome w ev = Some (Throw e) ->
    walk fuel w query key cap page summaries pageToken
    = Some (requested fuel w query key cap page summaries pageToken, Throw e).
Proof.
  induction fuel as [|fuel IH]; intros page summaries pageToken ev e;
    cbn [walk requested]; [intros []|].
  pose proof (search_outcome_of_request w page query key pageToken) as R.
  assert (P : In ev ((if truthy pageToken then [Sleep 2000] else [])
                       ++ [SearchRequest page query
                             (if truthy pageToken then pageToken else None) key]) ->
              search_outcome w ev = Some (Throw e) ->
              fetchTextSearchPage w page query key pageToken = Throw e).
  { intros I O. apply in_app_or in I as [I|[<-|[]]].
    - destruct (truthy pageToken); [destruct I as [<-|[]]; discriminate | destruct I].
    - congruence. }
  destruct (fetchTextSearchPage w page query key pageToken) as [payload|e0].
  - destruct (truthy (next_page_token payload) && _ && _).
    + intros I O. apply in_app_or in I as [I|I].
      * specialize (P I O). discriminate.
      * now rewrite (IH _ _ _ _ _ I O).
    + intros I O. specialize (P I O). discriminate.
  - intros I O. specialize (P I O). congruence.
Qed.

(** X7.  As soon as a search request has failed, whatever the reason (the
    fetch rejects, the response is not ok, its body does not parse, or its
    status is neither [OK] nor [ZERO_RESULTS]), the handler has answered:
    with status 500 and the message of that failure, having made the
    search requests up to that one and no detail request. *)
Theorem X7_failed_search_aborts_before_any_lookup :
  forall (fuel : nat) (w : World) (request : RequestBody) (apiKey query : string)
         (ev : Event) (e : Thrown),
    credentials request = Some (apiKey, query) ->
    let made :=
      requested fuel w (searchQuery query (req_location request)) apiKey
                (sanitizeMaxResults (req_maxResults request)) 0 [] None in
    In ev made ->
    search_outcome w ev = Some (Throw e) ->
    POST fractional fuel w (Return request) = Some (made, internal_error e)
    /\ existsb is_details_request made = false.
Proof.
  intros fuel w request apiKey query ev e C made I O; subst made.
  rewrite (POST_accepted _ _ _ _ _ C).
  pose proof (walk_fails_at _ _ _ _ _ _ _ _ _ _ I O) as W.
  rewrite W. split; [reflexivity|].
  apply (walk_effects _ _ _ _ _ _ _ _ _ _ W).
Qed.

(* ----------------------------------------------------------------- *)
(** *** Whether the walk ends *)

(** A page that [fetchTextSearchPage] returns is the body of an ok
    response of the search endpoint. *)
Lemma fetchTextSearchPage_Return (w : World) (n : nat) (query key : string)
      (pageToken : option string) (payload : SearchPayload) :
  fetchTextSearchPage w n query key pageToken = Return payload ->
  exists code,
    text_search w n query (if truthy pageToken then pageToken else None) key
    = Responded true code (Return payload).
Proof.
  unfold fetchTextSearchPage.
  destruct (text_search w n query _ key) as [e|[|] code [p|e]];
    try discriminate; cbn [negb].
  destruct (_ || _)%bool.
  - intros H. inversion H; subst. eauto.
  - destruct (String.eqb _ _); [discriminate|].
    destruct (_ || _)%bool; discriminate.
Qed.

Lemma walk_terminates (w : World) (query key : string) (z : Z) :
  (forall n pagetoken code payload,
      text_search w n query pagetoken key = Responded true code (Return payload) ->
      truthy (next_page_token payload) = true ->
      results payload <> []) ->
  forall fuel page summaries pageToken,
    1 <= fuel ->
    Z.to_nat z - length summaries <= fuel ->
    walk fuel w query key (of_Z z) page summaries pageToken <> None.
Proof.
  intros Hpages.
  induction fuel as [|fuel IH]; intros page summaries pageToken H1 Hfuel;
    [lia|]. cbn [walk].
  destruct (fetchTextSearchPage w page query key pageToken) as [payload|e] eqn:F;
    [|discriminate].
  apply fetchTextSearchPage_Return in F as [code F].
  destruct (truthy (next_page_token payload)) eqn:T; [|discriminate].
  rewrite lt_of_nat_of_Z. cbn [andb].
  destruct (Z.of_nat (length (summaries ++ results payload)) <? z)%Z eqn:L;
    [|discriminate].
  destruct (lt _ MAX_TOTAL_RESULTS); [|discriminate]. cbn [andb].
  apply Z.ltb_lt in L. rewrite length_app in L.
  specialize (Hpages _ _ _ _ F T).
  assert (0 < length (results payload))
    by (destruct (results payload); [congruence | cbn; lia]).
  specialize (IH (S page) (summaries ++ results payload) (next_page_token payload)).
  destruct (walk fuel w query key (of_Z z) (S page) _ _) as [[later outcome]|];
    [discriminate|].
  apply IH; rewrite ?length_app; lia.
Qed.

(** X5.  If the search endpoint never answers with a page that has a
    continuation token but no result, the handler answers every request:
    the walk ends within 60 pages (the sanitized cap at most), and the
    enrichment always ends. *)
Theorem X5_handler_answers_when_pages_are_not_empty :
  forall (fuel : nat) (w : World) (request : RequestBody),
    (forall n query pagetoken key code payload,
        text_search w n query pagetoken key = Responded true code (Return payload) ->
        truthy (next_page_token payload) = true ->
        results payload <> []) ->
    60 <= fuel ->
    exists effects response,
      POST fractional fuel w (Return request) = Some (effects, response).
Proof.
  intros fuel w request Hpages Hfuel.
  destruct (credentials request) as [[apiKey query]|] eqn:C.
  - rewrite (POST_accepted _ _ _ _ _ C).
    destruct (sanitizeMaxResults_range (req_maxResults request)) as (z & -> & Hz).
    pose proof (walk_terminates w (searchQuery query (req_location request))
                  apiKey z (fun n pagetoken => Hpages n _ pagetoken _)
                  fuel 0 [] None) as T.
    destruct (walk fuel w _ apiKey (of_Z z) 0 [] None)
      as [[searching [summaries|e]]|];
      [| eauto | exfalso; apply T; [lia | cbn; lia | reflexivity]].
    cbn zeta.
    pose proof (enrich_terminates fractional w apiKey
                  (slice summaries (of_nat 0) (of_Z z))
                  (length (slice summaries (of_nat 0) (of_Z z))) 0 []) as E.
    destruct (enrich fractional _ w apiKey _ 0 [])
      as [[enriching [records|e]]|];
      [eauto | eauto | exfalso; apply E; [lia | reflexivity]].
  - destruct (POST_refused fuel w request C) as [message R]. eauto.
Qed.

Lemma walk_runs_on (w : World) (query key : string) (z : Z) :
  (1 <= z)%Z ->
  (forall n pagetoken,
      exists code payload,
        text_search w n query pagetoken key = Responded true code (Return payload)
        /\ sp_status payload = "OK"%string
        /\ results payload = []
        /\ truthy (next_page_token payload) = true) ->
  forall fuel page pageToken,
    walk fuel w query key (of_Z z) page [] pageToken = None.
Proof.
  intros Hz Hpages.
  induction fuel as [|fuel IH]; intros page pageToken; [reflexivity|].
  cbn [walk]. unfold fetchTextSearchPage.
  destruct (Hpages page (if truthy pageToken then pageToken else None))
    as (code & payload & -> & Hs & Hr & Ht).
  cbn [negb]. rewrite Hs. cbn -[lt walk].
  rewrite Hr, Ht. cbn [app length].
  unfold MAX_TOTAL_RESULTS. rewrite !lt_of_nat_of_Z.
  replace (Z.of_nat 0 <? z)%Z with true by (symmetry; apply Z.ltb_lt; lia).
  cbn [andb Z.of_nat Z.ltb Z.compare]. now rewrite IH.
Qed.

(** X6.  If the search endpoint answers every request with an [OK] page
    that has a continuation token and no result, the handler never answers
    an accepted request: however many pages are allowed, the walk is still
    asking for the next one. *)
Theorem X6_empty_pages_with_tokens_never_end :
  forall (w : World) (request : RequestBody) (apiKey query : string),
    credentials request = Some (apiKey, query) ->
    (forall n searchQuery pagetoken,
        exists code payload,
          text_search w n searchQuery pagetoken apiKey
          = Responded true code (Return payload)
          /\ sp_status payload = "OK"%string
          /\ results payload = []
          /\ truthy (next_page_token payload) = true) ->
    forall fuel : nat, POST fractional fuel w (Return request) = None.
Proof.
  intros w request apiKey query C Hpages fuel.
  rewrite (POST_accepted _ _ _ _ _ C).
  destruct (sanitizeMaxResults_range (req_maxResults request)) as (z & -> & Hz).
  now rewrite (walk_runs_on w _ apiKey z (proj1 Hz)
                 (fun n pagetoken => Hpages n _ pagetoken)).
Qed.

(* ----------------------------------------------------------------- *)
(** *** Asking for more *)

Lemma walk_prefix (w : World) (query key : string) (z1 z2 : Z) :
  (z1 <= z2)%Z ->
  forall fuel1 fuel2 page summaries pageToken effects1 collected1
         effects2 collected2,
    walk fuel1 w query key (of_Z z1) page summaries pageToken
    = Some (effects1, Return collected1) ->
    walk fuel2 w query key (of_Z z2) page summaries pageToken
    = Some (effects2, Return collected2) ->
    firstn (Z.to_nat z1) collected1 = firstn (Z.to_nat z1) collected2.
Proof.
  intros Hz.
  induction fuel1 as [|fuel1 IH];
    intros [|fuel2] page summaries pageToken effects1 collected1
           effects2 collected2; cbn [walk]; try discriminate.
  destruct (fetchTextSearchPage w page query key pageToken) as [payload|e];
    [|discriminate].
  unfold MAX_TOTAL_RESULTS. rewrite !lt_of_nat_of_Z.
  set (summaries' := summaries ++ results payload).
  destruct (truthy (next_page_token payload)); cbn [andb];
    [|intros H1 H2; inversion H1; inversion H2; reflexivity].
  destruct (Z.of_nat (length summaries') <? 60)%Z;
    rewrite ?andb_false_r;
    [|intros H1 H2; inversion H1; inversion H2; reflexivity].
  rewrite !andb_true_r.
  destruct (Z.of_nat (length summaries') <? z1)%Z eqn:L1.
  - apply Z.ltb_lt in L1.
    replace (Z.of_nat (length summaries') <? z2)%Z with true
      by (symmetry; apply Z.ltb_lt; lia).
    destruct (walk fuel1 w query key (of_Z z1) (S page) _ _)
      as [[later1 outcome1]|] eqn:W1; [|discriminate].
    destruct (walk fuel2 w query key (of_Z z2) (S page) _ _)
      as [[later2 outcome2]|] eqn:W2; [|discriminate].
    intros H1 H2. inversion H1; inversion H2; subst.
    now apply (IH _ _ _ _ _ _ _ _ W1 W2).
  - apply Z.ltb_ge in L1.
    destruct (Z.of_nat (length summaries') <? z2)%Z.
    + destruct (walk fuel2 w query key (of_Z z2) (S page) _ _)
        as [[later2 outcome2]|] eqn:W2; [|discriminate].
      intros H1 H2. inversion H1; inversion H2; subst.
      apply walk_collects in W2 as ->.
      rewrite firstn_app.
      replace (Z.to_nat z1 - length summaries') with 0 by lia.
      now rewrite firstn_O, app_nil_r.
    + intros H1 H2. inversion H1; inversion H2; reflexivity.
Qed.

(** X8.  Asking for more never changes what comes first: against the
    same world, the summaries kept for a cap are the first ones of the
    summaries kept for any larger cap, whenever both walks come back. *)
Theorem X8_larger_cap_extends_the_summaries :
  forall (fuel1 fuel2 : nat) (w : World) (query key : string) (z1 z2 : Z)
         (effects1 effects2 : list Event)
         (summaries1 summaries2 : list TextSearchPlace),
    (0 <= z1 <= z2)%Z ->
    walk fuel1 w query key (of_Z z1) 0 [] None
    = Some (effects1, Return summaries1) ->
    walk fuel2 w query key (of_Z z2) 0 [] None
    = Some (effects2, Return summaries2) ->
    slice summaries1 (of_nat 0) (of_Z z1)
    = firstn (Z.to_nat z1) (slice summaries2 (of_nat 0) (of_Z z2)).
Proof.
  intros fuel1 fuel2 w query key z1 z2 effects1 effects2 summaries1 summaries2
         Hz W1 W2.
  rewrite !slice_cap by lia. rewrite firstn_firstn.
  replace (Nat.min (Z.to_nat z1) (Z.to_nat z2)) with (Z.to_nat z1) by lia.
  apply (walk_prefix w query key z1 z2 (proj2 Hz) _ _ _ _ _ _ _ _ _ W1 W2).
Qed.

(* ----------------------------------------------------------------- *)
(** *** The enrichment, read from its effects *)

Lemma details_or_undefined_value (w : World) (key : string) (n : nat)
      (summary : TextSearchPlace) (details : option PlaceDetails) :
  details_or_undefined w key n summary = Return details ->
  details = details_or_absent (fetchPlaceDetails w n (place_id summary) key)
  /\ forall e, fetchPlaceDetails w n (place_id summary) key = Throw e ->
               rethrown e = false.
Proof.
  unfold details_or_undefined.
  destruct (fetchPlaceDetails w n (place_id summary) key) as [d|e].
  - intros H. inversion H. split; [reflexivity | discriminate].
  - destruct (rethrown e) eqn:R; [discriminate|].
    intros H. inversion H. split; [reflexivity | congruence].
Qed.

(** When [Promise.all] fulfils, every callback of the chunk returned. *)
Lemma chunk_fulfilled (w : World) (key : string) (first index : nat)
      (chunk : list TextSearchPlace) (detailsList : list (option PlaceDetails)) :
  Promise_all first (map_indexed (details_or_undefined w key) index chunk)
  = Return detailsList ->
  (forall j x, nth_error chunk j = Some x ->
     details_or_undefined w key (index + j) x
     = Return (details_or_absent
                 (fetchPlaceDetails w (index + j) (place_id x) key)))
  /\ detailsList
     = map_indexed
         (fun n s => details_or_absent (fetchPlaceDetails w n (place_id s) key))
         index chunk.
Proof.
  intros P.
  assert (Q : forall j x, nth_error chunk j = Some x ->
                details_or_undefined w key (index + j) x
                = Return (details_or_absent
                            (fetchPlaceDetails w (index + j) (place_id x) key))).
  { intros j x Hj.
    destruct (details_or_undefined w key (index + j) x) as [d|e] eqn:D.
    - apply details_or_undefined_value in D as [-> _]. reflexivity.
    - exfalso.
      assert (I : In (Throw e) (map_indexed (details_or_undefined w key) index chunk))
        by (apply In_map_indexed; eauto).
      apply (Promise_all_rejects first) in I as [e' I]. congruence. }
  split; trivial.
  rewrite (Promise_all_fulfils first (details_or_undefined w key)
             (fun n s => details_or_absent
                           (fetchPlaceDetails w n (place_id s) key))
             chunk index Q) in P.
  now inversion P.
Qed.

Lemma nth_error_in_chunk {A : Type} (items : list A) (index n j : nat) :
  j < n ->
  nth_error (firstn n (skipn index items)) j = nth_error items (index + j).
Proof.
  intros H. rewrite nth_error_firstn.
  replace (j <? n) with true by (symmetry; now apply Nat.ltb_lt).
  apply nth_error_skipn.
Qed.

Lemma map_indexed_firstn_add {A B : Type} (f : nat -> A -> B) (a b : nat) :
  forall (items : list A) (from : nat),
    map_indexed f from (firstn (a + b) items)
    = map_indexed f from (firstn a items)
      ++ map_indexed f (from + a) (firstn b (skipn a items)).
Proof.
  induction a as [|a IH]; intros items from; cbn [Nat.add firstn skipn].
  - now rewrite Nat.add_0_r.
  - destruct items as [|x rest]; cbn.
    + now rewrite firstn_nil.
    + rewrite IH. now rewrite Nat.add_succ_r.
Qed.

(** A run of the loop that returns has pushed the record of every summary
    from [index] on and has issued the request of each of them, in order. *)
Lemma enrich_Return (w : World) (key : string) (items : list TextSearchPlace) :
  forall fuel index records effects pushed,
    enrich fractional fuel w key items index records
    = Some (effects, Return pushed) ->
    pushed = records ++ map_indexed (record_of fractional w key) index
                          (skipn index items)
    /\ effects = details_requests key index (skipn index items).
Proof.
  unfold details_requests.
  induction fuel as [|fuel IH]; intros index records effects pushed;
    cbn [enrich]; destruct (index <? length items) eqn:E; try discriminate;
    try (apply Nat.ltb_ge in E; intros H; inversion H; subst;
         rewrite skipn_all2 by trivial; now rewrite app_nil_r).
  apply Nat.ltb_lt in E. rewrite slice_chunk by trivial.
  destruct (Promise_all _ _) as [detailsList|e0] eqn:P; [|discriminate].
  apply chunk_fulfilled in P as [_ ->].
  rewrite records_of_chunk.
  destruct (enrich fractional fuel w key items (index + chunkSize) _)
    as [[later outcome]|] eqn:En; [|discriminate].
  intros H. inversion H; subst. clear H.
  apply IH in En as [-> ->]. split.
  - rewrite (map_indexed_chunks (record_of fractional w key) items index).
    now rewrite app_assoc.
  - now rewrite (map_indexed_chunks
                   (fun n summary => DetailsRequest n (place_id summary) key)
                   items index).
Qed.

(** A run of the loop that aborts has issued the requests of whole chunks
    only, up to and including the first chunk in which a lookup threw an
    error that is thrown again. *)
Lemma enrich_abort (w : World) (key : string) (items : list TextSearchPlace) :
  forall fuel index records effects e,
    enrich fractional fuel w key items index records = Some (effects, Throw e) ->
    exists c,
      effects = details_requests key index
                  (firstn (chunkSize * S c) (skipn index items))
      /\ (exists n s,
             index + chunkSize * c <= n < index + chunkSize * S c
             /\ nth_error items n = Some s
             /\ fetchPlaceDetails w n (place_id s) key = Throw e
             /\ rethrown e = true)
      /\ (forall n s e',
             index <= n < index + chunkSize * c ->
             nth_error items n = Some s ->
             fetchPlaceDetails w n (place_id s) key = Throw e' ->
             rethrown e' = false).
Proof.
  unfold details_requests.
  induction fuel as [|fuel IH]; intros index records effects e;
    cbn [enrich]; destruct (index <? length items) eqn:E; try discriminate.
  apply Nat.ltb_lt in E. rewrite slice_chunk by trivial.
  destruct (Promise_all _ _) as [detailsList|e0] eqn:P.
  - apply chunk_fulfilled in P as [Q ->].
    destruct (enrich fractional fuel w key items (index + chunkSize) _)
      as [[later outcome]|] eqn:En; [|discriminate].
    intros H. inversion H; subst. clear H.
    apply IH in En as (c & -> & (n & s & Hn & Hs & Hf & Hr) & Hquiet).
    exists (S c). split; [|split].
    + replace (chunkSize * S (S c)) with (chunkSize + chunkSize * S c) by lia.
      now rewrite map_indexed_firstn_add, skipn_skipn,
        (Nat.add_comm chunkSize index).
    + exists n, s. repeat split; trivial; lia.
    + intros n' s' e' Hn' Hs' Hf'.
      destruct (Nat.lt_ge_cases n' (index + chunkSize)) as [Hlt|Hge].
      * replace n' with (index + (n' - index)) in Hs', Hf' by lia.
        rewrite <- (nth_error_in_chunk items index chunkSize) in Hs' by lia.
        apply Q in Hs'.
        apply details_or_undefined_value in Hs' as [_ Hs'].
        now apply Hs'.
      * apply (Hquiet n' s' e'); trivial. lia.
  - intros H. inversion H; subst. clear H.
    apply Promise_all_Throw in P.
    apply In_map_indexed in P as (j & x & Hj & Hx).
    symmetry in Hx. apply details_or_undefined_Throw in Hx as (m & ? & ? & ?).
    exists 0. split; [|split].
    + now rewrite Nat.mul_1_r.
    + exists (index + j), x.
      assert (j < chunkSize).
      { assert (L : j < length (firstn chunkSize (skipn index items)))
          by (apply nth_error_Some; congruence).
        rewrite length_firstn in L. lia. }
      repeat split; trivial; try lia.
      now apply nth_error_chunk in Hj.
    + intros n s e' Hn. lia.
Qed.

Lemma filter_none {A : Type} (p : A -> bool) (items : list A) :
  existsb p items = false -> filter p items = [].
Proof.
  induction items as [|x rest IH]; cbn; trivial.
  destruct (p x); [discriminate | exact IH].
Qed.

Lemma filter_all {A : Type} (p : A -> bool) (items : list A) :
  forallb p items = true -> filter p items = items.
Proof.
  induction items as [|x rest IH]; cbn; trivial.
  destruct (p x); [|discriminate]. intros H. now rewrite IH.
Qed.

Lemma no_page_in_lookups (w : World) (items : list Event) :
  forallb is_details_request items = true ->
  flat_map (page_results w) items = [].
Proof.
  induction items as [|ev rest IH]; cbn; trivial.
  destruct ev; cbn; try discriminate. exact IH.
Qed.

(** X9.  What a successful run returns, in full.  Let the trimmed
    summaries be the first [cap] results of the pages fetched, taken in
    the order of the requests, with [cap] the sanitized maximum.  Then the
    records of the response are, position by position, the merge of each
    trimmed summary with the details its own lookup gave (absent when that
    lookup failed); the detail requests made are exactly one per trimmed
    summary, in order, for its identifier; and there are at most 60
    records. *)
Theorem X9_records_of_a_successful_run :
  forall (fuel : nat) (w : World) (request : RequestBody) (apiKey query : string)
         (effects : list Event) (records : list PlaceRecord),
    credentials request = Some (apiKey, query) ->
    POST fractional fuel w (Return request)
    = Some (effects, {| status := 200; body := Results records |}) ->
    let trimmedSummaries :=
      slice (flat_map (page_results w) effects) (of_nat 0)
            (sanitizeMaxResults (req_maxResults request)) in
    records = map_indexed (record_of fractional w apiKey) 0 trimmedSummaries
    /\ filter is_details_request effects
       = details_requests apiKey 0 trimmedSummaries
    /\ length records <= 60.
Proof.
  intros fuel w request apiKey query effects records C H.
  rewrite (POST_accepted _ _ _ _ _ C) in H.
  destruct (walk fuel w _ apiKey _ 0 [] None)
    as [[searching [summaries|e]]|] eqn:W; [| |discriminate];
    [|inversion H].
  cbn zeta in H.
  destruct (enrich fractional _ w apiKey _ 0 [])
    as [[enriching [pushed|e]]|] eqn:En; [| |discriminate];
    inversion H; subst; clear H.
  pose proof (enrich_effects _ _ _ _ _ _ _ _ _ En) as D.
  pose proof (walk_effects _ _ _ _ _ _ _ _ _ _ W) as [_ S].
  apply walk_collects in W. cbn [app] in W.
  apply enrich_Return in En as [-> ->]. cbn [skipn app] in *.
  rewrite flat_map_app, (no_page_in_lookups w _ D), app_nil_r, <- W.
  rewrite filter_app, (filter_none _ _ S), (filter_all _ _ D). cbn [app].
  repeat split.
  rewrite map_indexed_length.
  destruct (sanitizeMaxResults_range (req_maxResults request)) as (z & -> & Hz).
  rewrite slice_cap by lia. rewrite length_firstn. lia.
Qed.

(** X10.  When the batching loop aborts, it is on the first chunk of five
    that holds a lookup whose error is thrown again, and with such an error
    of that chunk: the requests of that chunk and of every chunk before it
    have all been made, in order, and no request of a later chunk has; in
    the chunks before it no lookup threw an error that is thrown again. *)
Theorem X10_abort_is_by_whole_chunks :
  forall (fuel : nat) (w : World) (apiKey : string)
         (trimmedSummaries : list TextSearchPlace)
         (effects : list Event) (e : Thrown),
    enrich fractional fuel w apiKey trimmedSummaries 0 []
    = Some (effects, Throw e) ->
    exists c,
      effects = details_requests apiKey 0 (firstn (5 * S c) trimmedSummaries)
      /\ (exists n summary,
             5 * c <= n < 5 * S c
             /\ nth_error trimmedSummaries n = Some summary
             /\ fetchPlaceDetails w n (place_id summary) apiKey = Throw e
             /\ rethrown e = true)
      /\ (forall n summary e',
             n < 5 * c ->
             nth_error trimmedSummaries n = Some summary ->
             fetchPlaceDetails w n (place_id summary) apiKey = Throw e' ->
             rethrown e' = false).
Proof.
  intros fuel w apiKey trimmedSummaries effects e En.
  apply enrich_abort in En as (c & -> & (n & s & Hn & Hs & Hf & Hr) & Hquiet).
  unfold chunkSize in *. cbn [skipn Nat.add] in *.
  exists c. split; [reflexivity|]. split.
  - exists n, s. auto.
  - intros n' s' e' Hn'. apply Hquiet. lia.
Qed.

(* ----------------------------------------------------------------- *)
(** *** Where an abort comes from *)

(** A walk that throws throws what its last request threw. *)
Lemma walk_Throw (w : World) (query key : string) (cap : Number) :
  forall fuel page summaries pageToken effects e,
    walk fuel w query key cap page summaries pageToken = Some (effects, Throw e) ->
    exists ev, In ev effects /\ search_outcome w ev = Some (Throw e).
Proof.
  induction fuel as [|fuel IH]; intros page summaries pageToken effects e;
    cbn [walk]; [discriminate|].
  pose proof (search_outcome_of_request w page query key pageToken) as R.
  destruct (fetchTextSearchPage w page query key pageToken) as [payload|e0].
  - destruct (truthy (next_page_token payload) && _ && _); [|discriminate].
    destruct (walk fuel w query key cap (S page) _ _)
      as [[later outcome']|] eqn:W; [|discriminate].
    intros H. inversion H; subst. clear H.
    apply IH in W as (ev & I & O).
    exists ev. split; trivial. apply in_or_app. now right.
  - intros H. inversion H; subst. clear H.
    eexists. split; [|exact R]. apply in_or_app. right. now left.
Qed.

(** X11.  The message of a response with status 500 is never made up
    without cause: either reading the body of the request threw, nothing
    was requested, and the response carries what was thrown; or a search
    request of the run failed, and the response carries what it threw (its
    message, or the generic message when what was thrown is not an Error);
    or a detail lookup of the run threw an Error whose message holds
    "quota exceeded" or "Request denied", and the response carries that
    message. *)
Theorem X11_every_500_has_its_cause :
  forall (fuel : nat) (w : World) (parsed : Completion RequestBody)
         (effects : list Event) (message : string),
    POST fractional fuel w parsed
    = Some (effects, {| status := 500; body := ErrorBody message |}) ->
    (exists e,
        parsed = Throw e
        /\ effects = []
        /\ internal_error e = {| status := 500; body := ErrorBody message |})
    \/ (exists ev e,
           In ev effects
           /\ search_outcome w ev = Some (Throw e)
           /\ internal_error e = {| status := 500; body := ErrorBody message |})
    \/ (exists n id key,
           In (DetailsRequest n id key) effects
           /\ fetchPlaceDetails w n id key = Throw (Error message)
           /\ rethrown (Error message) = true).
Proof.
  intros fuel w [request|e0] effects message H.
  2: { cbn in H. inversion H; subst. left. exists e0. auto. }
  right.
  destruct (credentials request) as [[apiKey query]|] eqn:C.
  - rewrite (POST_accepted _ _ _ _ _ C) in H.
    destruct (walk fuel w _ apiKey _ 0 [] None)
      as [[searching [summaries|e]]|] eqn:W; [| |discriminate].
    + cbn zeta in H.
      destruct (enrich fractional _ w apiKey _ 0 [])
        as [[enriching [records|e]]|] eqn:En; [| |discriminate];
        inversion H; subst; clear H.
      destruct (enrich_Throw _ _ _ _ _ _ _ _ _ En)
        as (m & n & id & -> & R & I & F).
      right. exists n, id, apiKey. repeat split; trivial.
      apply in_or_app. now right.
    + inversion H; subst. clear H.
      apply walk_Throw in W as (ev & I & O).
      left. exists ev, e. auto.
  - destruct (POST_refused fuel w request C) as [m R].
    rewrite R in H. inversion H.
Qed.

Lemma map_indexed_map {A B : Type} (f : A -> B) (items : list A) :
  forall from, map_indexed (fun _ x => f x) from items = map f items.
Proof. induction items as [|x rest IH]; intros from; cbn; now rewrite ?IH. Qed.

(** X12.  An outage of the detail endpoint costs the details and nothing
    else.  When every detail request is answered with an HTTP status that
    is not ok, a run on an accepted request either ends on a failure of a
    search request, or returns status 200 with one record per trimmed
    summary, each built from its summary alone. *)
Theorem X12_detail_outage_degrades_to_summaries :
  forall (fuel : nat) (w : World) (request : RequestBody) (apiKey query : string)
         (effects : list Event) (response : Response),
    (forall n id key,
        exists code json, place_details w n id key = Responded false code json) ->
    credentials request = Some (apiKey, query) ->
    POST fractional fuel w (Return request) = Some (effects, response) ->
    response
    = {| status := 200;
         body := Results
                   (map (fun summary => toRecord fractional summary None)
                        (slice (flat_map (page_results w) effects) (of_nat 0)
                               (sanitizeMaxResults (req_maxResults request)))) |}
    \/ exists ev e,
         In ev effects
         /\ search_outcome w ev = Some (Throw e)
         /\ response = internal_error e.
Proof.
  intros fuel w request apiKey query effects response Hdown C H.
  assert (F : forall n id, fetchPlaceDetails w n id apiKey = Return None).
  { intros n id. unfold fetchPlaceDetails.
    destruct (Hdown n id apiKey) as (code & json & ->). reflexivity. }
  rewrite (POST_accepted _ _ _ _ _ C) in H.
  destruct (walk fuel w _ apiKey _ 0 [] None)
    as [[searching [summaries|e]]|] eqn:W; [| |discriminate].
  - left. cbn zeta in H.
    pose proof (walk_collects _ _ _ _ _ _ _ _ _ _ W) as Hc. cbn [app] in Hc.
    set (trimmed := slice summaries (of_nat 0)
                          (sanitizeMaxResults (req_maxResults request))) in *.
    destruct (enrich_completes fractional w apiKey trimmed) with
      (fuel := length trimmed) (index := 0) (records := @nil PlaceRecord)
      as [enriching En].
    + intros n s _ e He. rewrite F in He. discriminate.
    + lia.
    + rewrite En in H. inversion H; subst effects response. clear H.
      pose proof (enrich_effects _ _ _ _ _ _ _ _ _ En) as D.
      rewrite flat_map_app, (no_page_in_lookups w _ D), app_nil_r, <- Hc.
      cbn [skipn app]. do 2 f_equal.
      rewrite <- (map_indexed_map _ trimmed 0).
      apply map_indexed_ext. intros j x _. unfold record_of. now rewrite F.
  - right. inversion H; subst. clear H.
    apply walk_Throw in W as (ev & I & O). eauto.
Qed.

(* ----------------------------------------------------------------- *)
(** *** The sanitation and the normalizer *)

(** X13.  [sanitizeMaxResults] is monotone on finite numbers: a larger
    request never yields a smaller cap. *)
Theorem X13_sanitizeMaxResults_is_monotone :
  forall p q : Q,
    Qle p q ->
    exists a b : Z,
      sanitizeMaxResults (Num (Fin p)) = of_Z a
      /\ sanitizeMaxResults (Num (Fin q)) = of_Z b
      /\ (a <= b)%Z.
Proof.
  intros p q H. rewrite !sanitizeMaxResults_finite.
  do 2 eexists. repeat split.
  apply Qfloor_resp_le in H. lia.
Qed.

(** X14.  A record lacks a map URL exactly when the details carry no URL
    and the merged latitude or longitude is missing: every record that has
    both coordinates has a map URL, and so has every record whose details
    carry a URL. *)
Theorem X14_map_url_is_missing_only_without_coordinates :
  forall (summary : TextSearchPlace) (details : option PlaceDetails),
    let r := toRecord fractional summary details in
    googleMapsUrl r = None
    <-> details ?. url = None /\ (latitude r = None \/ longitude r = None).
Proof.
  intros summary details r; subst r.
  destruct details as [d|]; cbn;
    [destruct (url d) as [u|]; cbn|];
    match goal with
    | |- context [match ?la with Some _ => _ | None => _ end] =>
        destruct la eqn:La
    | _ => idtac
    end;
    try match goal with
    | |- context [match ?ln with Some _ => _ | None => _ end] =>
        destruct ln eqn:Ln
    end;
    split; intros H; try discriminate; auto;
    try (destruct H as [H1 H2]; try discriminate;
         destruct H2; discriminate).
Qed.

(* ----------------------------------------------------------------- *)
(** *** The page and the route together *)

Lemma POST_status (fuel : nat) (w : World) (request : RequestBody)
      (effects : list Event) (response : Response) :
  POST fractional fuel w (Return request) = Some (effects, response) ->
  (exists records, response = {| status := 200; body := Results records |})
  \/ (exists message,
         (status response = 400%Z \/ status response = 500%Z)
         /\ body response = ErrorBody message).
Proof.
  intros H.
  destruct (credentials request) as [[apiKey query]|] eqn:C.
  - rewrite (POST_accepted _ _ _ _ _ C) in H.
    destruct (walk fuel w _ apiKey _ 0 [] None)
      as [[searching [summaries|e]]|]; [| |discriminate].
    + cbn zeta in H.
      destruct (enrich fractional _ w apiKey _ 0 [])
        as [[enriching [records|e]]|]; [| |discriminate];
        inversion H; subst;
        [left; eauto | right; eexists; split; [right|]; reflexivity].
    + inversion H; subst. right. eexists. split; [right|]; reflexivity.
  - destruct (POST_refused fuel w request C) as [m R].
    rewrite R in H. inversion H; subst.
    right. eexists. split; [left|]; reflexivity.
Qed.

(** X15.  The page's [disabled] memo and the route's two checks agree:
    the memo is true exactly when the route refuses the body the page
    posts.  A form whose memo is true is always answered with status 400
    and nothing is requested; a form whose memo is false is never answered
    with status 400.  The submit button, disabled while the page is loading
    or the memo is true, can therefore only be pressed on a form the route
    accepts. *)
Theorem X15_disabled_memo_iff_route_refuses :
  forall st : Page.State,
    credentials (Page.request_body st)
    = (if Page.disabled st then None
       else Some (Page.apiKey st, Page.searchTerm st))
    /\ (forall (fuel : nat) (w : World),
          if Page.disabled st
          then exists message,
                 POST fractional fuel w (Return (Page.request_body st))
                 = Some ([], {| status := 400; body := ErrorBody message |})
          else forall effects response,
                 POST fractional fuel w (Return (Page.request_body st))
                 = Some (effects, response) ->
                 status response <> 400%Z)
    /\ (Page.submit_button_disabled st = true
        <-> Page.isLoading st = true
            \/ credentials (Page.request_body st) = None)
    /\ (Page.submit_button_disabled st = false ->
        credentials (Page.request_body st)
        = Some (Page.apiKey st, Page.searchTerm st)).
Proof.
  intros st.
  assert (C : credentials (Page.request_body st)
              = (if Page.disabled st then None
                 else Some (Page.apiKey st, Page.searchTerm st)))
    by reflexivity.
  split; [exact C|]. split; [|split].
  - intros fuel w. destruct (Page.disabled st).
    + destruct (POST_refused fuel w _ C) as [m R]. exists m. exact R.
    + intros effects response H.
      rewrite (POST_accepted _ _ _ _ _ C) in H. intros S.
      destruct (walk fuel w _ _ _ 0 [] None)
        as [[searching [summaries|e]]|]; [| |discriminate].
      * cbn zeta in H.
        destruct (enrich fractional _ w _ _ 0 [])
          as [[enriching [records|e]]|]; [| |discriminate];
          inversion H; subst; cbn in S; discriminate.
      * inversion H; subst. cbn in S. discriminate.
  - unfold Page.submit_button_disabled. rewrite C.
    destruct (Page.isLoading st), (Page.disabled st); cbn;
      split; auto; intros [H|H]; discriminate.
  - unfold Page.submit_button_disabled. rewrite C.
    destruct (Page.isLoading st), (Page.disabled st); cbn;
      trivial; discriminate.
Qed.

(** X16.  Whatever number the "Max Results" input yields, the page stores
    a finite number from 1 to 60, and the cap the route derives from the
    posted value is its floor, again from 1 to 60: the cap is the stored
    value itself whenever that is whole. *)
Theorem X16_stored_maximum_and_cap_agree :
  forall typed : Number,
    exists q : Q,
      Page.onChange_maxResults typed = Fin q
      /\ Qle (inject_Z 1) q /\ Qle q (inject_Z 60)
      /\ sanitizeMaxResults (Page.json_number (Page.onChange_maxResults typed))
         = of_Z (Qfloor q)
      /\ (1 <= Qfloor q <= 60)%Z.
Proof.
  assert (K : forall q, Qle (inject_Z 1) q -> Qle q (inject_Z 60) ->
                sanitizeMaxResults (Num (Fin q)) = of_Z (Qfloor q)
                /\ (1 <= Qfloor q <= 60)%Z).
  { intros q H1 H60.
    apply Qfloor_resp_le in H1, H60. rewrite Qfloor_Z in H1, H60.
    rewrite sanitizeMaxResults_finite. split; [|lia].
    do 2 f_equal. lia. }
  assert (One : exists q : Q,
             of_Z 1 = Fin q /\ Qle (inject_Z 1) q /\ Qle q (inject_Z 60)
             /\ sanitizeMaxResults (Num (of_Z 1)) = of_Z (Qfloor q)
             /\ (1 <= Qfloor q <= 60)%Z).
  { exists (inject_Z 1). repeat split; try reflexivity; try discriminate. }
  assert (Sixty : exists q : Q,
             of_Z 60 = Fin q /\ Qle (inject_Z 1) q /\ Qle q (inject_Z 60)
             /\ sanitizeMaxResults (Num (of_Z 60)) = of_Z (Qfloor q)
             /\ (1 <= Qfloor q <= 60)%Z).
  { exists (inject_Z 60). repeat split; try reflexivity; try discriminate. }
  intros [| | |q]; try exact One; try exact Sixty.
  unfold Page.onChange_maxResults, Page.number_or.
  destruct (Qeq_bool q (inject_Z 0)); [exact One|].
  unfold of_Z. cbn [Math_max].
  destruct (Qle_bool (inject_Z 1) q) eqn:L1; [|exact One].
  cbn [Math_min].
  destruct (Qle_bool (inject_Z 60) q) eqn:L60; [exact Sixty|].
  apply Qle_bool_iff in L1.
  assert (H60 : Qle q (inject_Z 60)).
  { apply Qlt_le_weak. apply Qnot_le_lt. intros H.
    apply Qle_bool_iff in H. congruence. }
  exists q. cbn [Page.json_number].
  destruct (K q L1 H60). auto.
Qed.

(** X17.  After a round trip with the route, the page shows what the
    route answered: either the records of the response and no error, or
    the error message of the response, word for word, and no record.  It
    is never left loading, and never holds undefined results. *)
Theorem X17_page_shows_what_the_route_answers :
  forall (fuel : nat) (w : World) (st : Page.State)
         (effects : list Event) (response : Response),
    POST fractional fuel w (Return (Page.request_body st)) = Some (effects, response) ->
    let st' := Page.handleSubmit st (Return response) in
    Page.isLoading st' = false
    /\ match body response with
       | Results records =>
           Page.error st' = None /\ Page.results st' = Some records
       | ErrorBody message =>
           Page.error st' = Some message /\ Page.results st' = Some []
       end.
Proof.
  intros fuel w st effects response H st'; subst st'.
  apply POST_status in H as [[records ->]|(m & S & B)].
  - split; [reflexivity|]. cbn. split; reflexivity.
  - destruct response as [code b]. cbn in S, B. subst b.
    unfold Page.handleSubmit, Page.ok. cbn [status body].
    destruct S as [-> | ->]; cbn; repeat split.
Qed.


(* ----------------------------------------------------------------- *)
(** *** The ceiling and the quota, over whole runs *)

Lemma first_request_split (paused : bool) (r : Event) (rest earlier later : list Event)
      (n : nat) (query token key : string) :
  ((if paused then [Sleep 2000] else []) ++ [r]) ++ rest
  = earlier ++ SearchRequest n query (Some token) key :: later ->
  (earlier = (if paused then [Sleep 2000] else [])
   /\ r = SearchRequest n query (Some token) key)
  \/ exists earlier',
       earlier = (if paused then [Sleep 2000] else []) ++ r :: earlier'
       /\ rest = earlier' ++ SearchRequest n query (Some token) key :: later.
Proof.
  destruct paused; destruct earlier as [|e1 [|e2 earlier']]; cbn;
    intros H; inversion H; subst; eauto.
Qed.

(** Whenever the walk asks for a further page, what it holds is short of
    the cap and of the ceiling. *)
Lemma requested_further_pages (w : World) (query key : string) (z : Z) :
  forall fuel page summaries pageToken,
    (truthy pageToken = true ->
     (Z.of_nat (length summaries) < z /\ Z.of_nat (length summaries) < 60)%Z) ->
    forall earlier n query' token key' later,
      requested fuel w query key (of_Z z) page summaries pageToken
      = earlier ++ SearchRequest n query' (Some token) key' :: later ->
      (Z.of_nat (length (summaries ++ flat_map (page_results w) earlier)) < z
       /\ Z.of_nat (length (summaries ++ flat_map (page_results w) earlier)) < 60)%Z.
Proof.
  induction fuel as [|fuel IH]; intros page summaries pageToken Hinv
    earlier n query' token key' later; cbn [requested].
  { intros H. destruct earlier; discriminate. }
  pose proof (page_effects_results w page query key pageToken) as R.
  assert (First : earlier = (if truthy pageToken then [Sleep 2000] else []) ->
                  SearchRequest page query
                    (if truthy pageToken then pageToken else None) key
                  = SearchRequest n query' (Some token) key' ->
                  (Z.of_nat (length (summaries ++ flat_map (page_results w) earlier)) < z
                   /\ Z.of_nat (length (summaries ++ flat_map (page_results w) earlier)) < 60)%Z).
  { intros -> E. destruct (truthy pageToken); [|discriminate].
    cbn. rewrite app_nil_r. now apply Hinv. }
  assert (Last : (if truthy pageToken then [Sleep 2000] else [])
                   ++ [SearchRequest page query
                         (if truthy pageToken then pageToken else None) key]
                 = earlier ++ SearchRequest n query' (Some token) key' :: later ->
                 (Z.of_nat (length (summaries ++ flat_map (page_results w) earlier)) < z
                  /\ Z.of_nat (length (summaries ++ flat_map (page_results w) earlier)) < 60)%Z).
  { intros H. rewrite <- (app_nil_r (_ ++ [_])) in H.
    apply first_request_split in H as [[E1 E2]|(earlier' & _ & E)];
      [now apply First | destruct earlier'; discriminate]. }
  destruct (fetchTextSearchPage w page query key pageToken) as [payload|e];
    [|exact Last].
  unfold MAX_TOTAL_RESULTS. rewrite !lt_of_nat_of_Z.
  destruct (truthy (next_page_token payload) && _ && _) eqn:C; [|exact Last].
  intros H.
  apply first_request_split in H as [[E1 E2]|(earlier' & -> & E)];
    [now apply First|].
  apply andb_true_iff in C as [C C60]. apply andb_true_iff in C as [_ Cz].
  apply Z.ltb_lt in C60, Cz.
  specialize (IH (S page) (summaries ++ results payload)
                 (next_page_token payload) (fun _ => conj Cz C60)
                 earlier' n query' token key' later E).
  replace ((if truthy pageToken then [Sleep 2000] else [])
             ++ SearchRequest page query
                  (if truthy pageToken then pageToken else None) key
             :: earlier')
    with (((if truthy pageToken then [Sleep 2000] else [])
             ++ [SearchRequest page query
                   (if truthy pageToken then pageToken else None) key])
            ++ earlier')
    by now rewrite <- app_assoc.
  now rewrite flat_map_app, R, app_assoc.
Qed.

(** C4, as the code has it.  The cap is a whole number from 1 to 60.
    Whenever the page loop asks for a further page (a request that carries
    a continuation token), finished or not, the results of the pages
    fetched before that request number fewer than the cap, hence fewer
    than 60.  When the loop hands its summaries over, they are the results
    of all the pages fetched, so they can pass the cap and the ceiling by
    results of the last page only; and the summaries kept after the trim
    number the smaller of what was collected and of the cap. *)
Theorem C4_trimmed_summaries_within_ceiling :
  forall (fuel : nat) (w : World) (query key : string) (raw : Value),
    exists cap : nat,
      sanitizeMaxResults raw = of_nat cap
      /\ 1 <= cap <= 60
      /\ (forall earlier n query' token key' later,
            requested fuel w query key (sanitizeMaxResults raw) 0 [] None
            = earlier ++ SearchRequest n query' (Some token) key' :: later ->
            length (flat_map (page_results w) earlier) < cap)
      /\ (forall effects summaries,
            walk fuel w query key (sanitizeMaxResults raw) 0 [] None
            = Some (effects, Return summaries) ->
            effects = requested fuel w query key (sanitizeMaxResults raw) 0 [] None
            /\ summaries = flat_map (page_results w) effects
            /\ length (slice summaries (of_nat 0) (sanitizeMaxResults raw))
               = Nat.min (length summaries) cap).
Proof.
  intros fuel w query key raw.
  destruct (sanitizeMaxResults_range raw) as (z & Ez & Hz).
  rewrite Ez.
  exists (Z.to_nat z). split; [|split; [|split]].
  - unfold of_nat. now rewrite Z2Nat.id by lia.
  - lia.
  - intros earlier n query' token key' later H.
    apply (requested_further_pages w query key z fuel 0 [] None) in H;
      [cbn [app] in H; lia | discriminate].
  - intros effects summaries W. split; [|split].
    + symmetry. now apply walk_requested in W.
    + now apply walk_collects in W.
    + rewrite slice_cap by lia. rewrite length_firstn. lia.
Qed.

(** The effects of the search phase hold a quota report only if the walk
    has ended on it. *)
Lemma walk_quota_ends (w : World) (query key : string) (cap : Number) :
  forall fuel page summaries pageToken,
    existsb (reports_quota w)
            (requested fuel w query key cap page summaries pageToken) = true ->
    walk fuel w query key cap page summaries pageToken
    = Some (requested fuel w query key cap page summaries pageToken,
            Throw (Error quota_exceeded)).
Proof.
  induction fuel as [|fuel IH]; intros page summaries pageToken;
    cbn [walk requested]; [discriminate|].
  destruct (fetchTextSearchPage w page query key pageToken) as [payload|e] eqn:F.
  - destruct (truthy (next_page_token payload) && _ && _).
    + intros Hq. rewrite existsb_app, page_effects_quota in Hq.
      apply orb_true_iff in Hq as [Hq|Hq].
      * apply fetchTextSearchPage_quota in Hq. congruence.
      * now rewrite (IH _ _ _ Hq).
    + intros Hq. rewrite page_effects_quota in Hq.
      apply fetchTextSearchPage_quota in Hq. congruence.
  - intros Hq. rewrite page_effects_quota in Hq.
    apply fetchTextSearchPage_quota in Hq. congruence.
Qed.

(** C2, as the code has it.  On an accepted request:

    - as soon as a search request has been answered with the business
      status [OVER_QUERY_LIMIT], the handler has answered, with status 500
      and the quota message, having made no detail request;

    - once the walk has handed its summaries over, if the lookup of one of
      the trimmed summaries is answered with [OVER_QUERY_LIMIT] and its
      chunk is reached (no lookup of an earlier chunk throws an error that
      is thrown again), the handler answers with status 500 and a single
      message, having made the requests of the chunks up to that one and
      of none after; the message is that of an error which a lookup of
      that same chunk threw and which is thrown again, so it is the quota
      message unless another lookup of the chunk threw a different such
      error.

    Either way the response carries an error and no results. *)
Theorem C2_quota_report_aborts_the_run :
  forall (fuel : nat) (w : World) (request : RequestBody) (apiKey query : string),
    credentials request = Some (apiKey, query) ->
    let cap := sanitizeMaxResults (req_maxResults request) in
    let composed := searchQuery query (req_location request) in
    (existsb (reports_quota w)
             (requested fuel w composed apiKey cap 0 [] None) = true ->
     POST fractional fuel w (Return request)
     = Some (requested fuel w composed apiKey cap 0 [] None,
             {| status := 500; body := ErrorBody quota_exceeded |})
     /\ existsb is_details_request
                (requested fuel w composed apiKey cap 0 [] None) = false)
    /\ (forall searching summaries n0 summary0,
          walk fuel w composed apiKey cap 0 [] None
          = Some (searching, Return summaries) ->
          let trimmedSummaries := slice summaries (of_nat 0) cap in
          nth_error trimmedSummaries n0 = Some summary0 ->
          reports_quota w (DetailsRequest n0 (place_id summary0) apiKey) = true ->
          (forall n summary e,
              n < 5 * (n0 / 5) ->
              nth_error trimmedSummaries n = Some summary ->
              fetchPlaceDetails w n (place_id summary) apiKey = Throw e ->
              rethrown e = false) ->
          exists message,
            POST fractional fuel w (Return request)
            = Some (searching
                      ++ details_requests apiKey 0
                           (firstn (5 * S (n0 / 5)) trimmedSummaries),
                    {| status := 500; body := ErrorBody message |})
            /\ (exists n summary,
                   5 * (n0 / 5) <= n < 5 * S (n0 / 5)
                   /\ nth_error trimmedSummaries n = Some summary
                   /\ fetchPlaceDetails w n (place_id summary) apiKey
                      = Throw (Error message)
                   /\ rethrown (Error message) = true)
            /\ ((forall n summary e,
                    5 * (n0 / 5) <= n < 5 * S (n0 / 5) ->
                    nth_error trimmedSummaries n = Some summary ->
                    fetchPlaceDetails w n (place_id summary) apiKey = Throw e ->
                    rethrown e = true ->
                    e = Error quota_exceeded) ->
                message = quota_exceeded)).
Proof.
  intros fuel w request apiKey query C cap composed. split.
  - intros Hq. rewrite (POST_accepted _ _ _ _ _ C).
    fold cap composed.
    pose proof (walk_quota_ends _ _ _ _ _ _ _ _ Hq) as W.
    rewrite W. split; [reflexivity|].
    apply (walk_effects _ _ _ _ _ _ _ _ _ _ W).
  - intros searching summaries n0 summary0 W trimmed Hn0 Hq Hquiet.
    rewrite (POST_accepted _ _ _ _ _ C). fold cap composed.
    rewrite W. cbn zeta. fold trimmed.
    pose proof (fetchPlaceDetails_quota _ _ _ _ Hq) as F0.
    pose proof (Nat.div_mod_eq n0 5) as Hdiv.
    pose proof (Nat.mod_upper_bound n0 5 ltac:(discriminate)) as Hmod.
    pose proof (enrich_terminates fractional w apiKey trimmed
                  (length trimmed) 0 []) as T.
    destruct (enrich fractional (length trimmed) w apiKey trimmed 0 [])
      as [[enriching [pushed|e]]|] eqn:En;
      [| | exfalso; apply T; [lia | reflexivity]]; clear T.
    + exfalso.
      pose proof (enrich_Return _ _ _ _ _ _ _ _ En) as [_ ->].
      assert (Q : existsb (reports_quota w)
                    (details_requests apiKey 0 (skipn 0 trimmed)) = true).
      { apply existsb_exists. eexists. split; [|exact Hq].
        apply In_map_indexed. exists n0, summary0. auto. }
      destruct (enrich_quota _ _ _ _ _ _ _ _ _ En Q). discriminate.
    + destruct (enrich_abort _ _ _ _ _ _ _ _ En)
        as (c & -> & (n & s & Hn & Hs & Hf & Hr) & Hq').
      unfold chunkSize in *. cbn [skipn Nat.add] in *.
      assert (Ec : c = n0 / 5).
      { destruct (Nat.lt_trichotomy c (n0 / 5)) as [Hlt|[Heq|Hgt]]; trivial.
        - rewrite (Hquiet n s e) in Hr; [discriminate | lia | trivial | trivial].
        - pose proof rethrown_quota_exceeded as RQ.
          rewrite (Hq' n0 summary0 (Error quota_exceeded)) in RQ;
            [discriminate | lia | trivial | trivial]. }
      subst c.
      destruct e as [message|]; [|discriminate].
      exists message. split; [reflexivity|]. split.
      * exists n, s. auto.
      * intros Hall. specialize (Hall n s (Error message) Hn Hs Hf Hr).
        now inversion Hall.
Qed.

End RunProperties.

(* ================================================================= *)
(** ** The further properties at sample inputs *)

Import Scenario.

(** A search request that reports that the quota is spent, and a chunk in
    which every lookup does. *)
Lemma C2_witness :
  (POST no_fractions 1 search_out_of_quota (Return (request Undefined))
   = Some ([SearchRequest 0 "coffee" None "key"],
           {| status := 500; body := ErrorBody quota_exceeded |})
   /\ existsb is_details_request [SearchRequest 0 "coffee" None "key"] = false)
  /\ exists message,
       POST no_fractions 1 out_of_quota (Return (request Undefined))
       = Some ([SearchRequest 0 "coffee" None "key"]
                 ++ details_requests "key" 0 (firstn (5 * S (0 / 5)) a_and_b),
               {| status := 500; body := ErrorBody message |})
       /\ (exists n summary,
              5 * (0 / 5) <= n < 5 * S (0 / 5)
              /\ nth_error a_and_b n = Some summary
              /\ fetchPlaceDetails out_of_quota n (place_id summary) "key"
                 = Throw (Error message)
              /\ rethrown (Error message) = true)
       /\ ((forall n summary e,
               5 * (0 / 5) <= n < 5 * S (0 / 5) ->
               nth_error a_and_b n = Some summary ->
               fetchPlaceDetails out_of_quota n (place_id summary) "key" = Throw e ->
               rethrown e = true ->
               e = Error quota_exceeded) ->
           message = quota_exceeded).
Proof.
  split.
  - apply (proj1 (C2_quota_report_aborts_the_run
                    no_fractions 1 search_out_of_quota (request Undefined)
                    "key" "coffee" eq_refl)).
    vm_compute. reflexivity.
  - apply (proj2 (C2_quota_report_aborts_the_run
                    no_fractions 1 out_of_quota (request Undefined)
                    "key" "coffee" eq_refl)
                 [SearchRequest 0 "coffee" None "key"] a_and_b
                 0 (summary "a" (Some "A") None)).
    + vm_compute. reflexivity.
    + reflexivity.
    + reflexivity.
    + intros n s e Hn. cbn in Hn. lia.
Defined.

(** A walk over two pages of one result, with the cap 60. *)
Lemma C4_witness :
  exists cap : nat,
    sanitizeMaxResults Undefined = of_nat cap
    /\ 1 <= cap <= 60
    /\ length (flat_map (page_results two_pages)
                        [SearchRequest 0 "coffee" None "key"; Sleep 2000]) < cap
    /\ length (slice [summary "a" (Some "A") None; summary "b" (Some "B") None]
                     (of_nat 0) (sanitizeMaxResults Undefined))
       = Nat.min 2 cap.
Proof.
  destruct (C4_trimmed_summaries_within_ceiling
              2 two_pages "coffee" "key" Undefined)
    as (cap & E & R & Hrequest & Hreturn).
  exists cap. split; [exact E|]. split; [exact R|]. split.
  - apply (Hrequest [SearchRequest 0 "coffee" None "key"; Sleep 2000]
                    1 "coffee" "next" "key" []).
    vm_compute. reflexivity.
  - apply (Hreturn [SearchRequest 0 "coffee" None "key"; Sleep 2000;
                    SearchRequest 1 "coffee" (Some "next") "key"]
                   [summary "a" (Some "A") None; summary "b" (Some "B") None]).
    vm_compute. reflexivity.
Defined.

(** A request with a blank credential. *)
Lemma X1_witness :
  POST no_fractions 0 nothing_found (Return blank_key)
  = Some ([], {| status := 400; body := ErrorBody "API key is required." |}).
Proof.
  apply (X1_invalid_request_is_refused_without_effect
           no_fractions 0 nothing_found blank_key).
  reflexivity.
Defined.


(** A run over two pages and two lookups. *)
Lemma X3_witness :
  exists tokens lookups,
    [SearchRequest 0 "coffee" None "key"; Sleep 2000;
     SearchRequest 1 "coffee" (Some "next") "key";
     DetailsRequest 0 "a" "key"; DetailsRequest 1 "b" "key"]
    = SearchRequest 0 (searchQuery "coffee" Undefined) None "key"
        :: later_pages (searchQuery "coffee" Undefined) "key" 1 tokens ++ lookups
    /\ Forall (fun token => token <> ""%string) tokens
    /\ forallb is_details_request lookups = true.
Proof.
  apply (X3_shape_of_a_run no_fractions 2 two_pages (request Undefined)
           "key" "coffee" _
           {| status := 200;
              body := Results [toRecord no_fractions (summary "a" (Some "A") None) None;
                               toRecord no_fractions (summary "b" (Some "B") None) None] |}).
  - reflexivity.
  - vm_compute. reflexivity.
Defined.

(** A walk over two pages. *)
Lemma X4_witness :
  [summary "a" (Some "A") None; summary "b" (Some "B") None]
  = flat_map (page_results two_pages)
             [SearchRequest 0 "coffee" None "key"; Sleep 2000;
              SearchRequest 1 "coffee" (Some "next") "key"].
Proof.
  apply (X4_pages_are_concatenated_in_order
           2 two_pages "coffee" "key" (of_Z 60)).
  vm_compute. reflexivity.
Defined.

(** A world whose pages with a token hold a result. *)
Lemma X5_witness :
  exists effects response,
    POST no_fractions 60 two_pages (Return (request Undefined)) = Some (effects, response).
Proof.
  apply (X5_handler_answers_when_pages_are_not_empty
           no_fractions 60 two_pages (request Undefined)).
  - intros n query pagetoken key code payload H T.
    destruct n; cbn in H; inversion H; subst.
    + discriminate.
    + cbn in T. discriminate.
  - lia.
Defined.

(** A world whose pages are empty and always have a successor. *)
Lemma X6_witness :
  POST no_fractions 1000 endless (Return (request Undefined)) = None.
Proof.
  refine (X6_empty_pages_with_tokens_never_end
            no_fractions endless (request Undefined) "key" "coffee" _ _ 1000).
  - reflexivity.
  - intros n searchQuery pagetoken.
    exists 200%Z, (ok_page [] (Some "next")). repeat split.
Defined.

(** A run whose first search request is answered with HTTP 503. *)
Lemma X7_witness :
  POST no_fractions 1 search_down (Return (request Undefined))
  = Some ([SearchRequest 0 "coffee" None "key"],
          internal_error (Error "Text search failed with status 503"))
  /\ existsb is_details_request [SearchRequest 0 "coffee" None "key"] = false.
Proof.
  apply (X7_failed_search_aborts_before_any_lookup
           no_fractions 1 search_down (request Undefined) "key" "coffee"
           (SearchRequest 0 "coffee" None "key")
           (Error "Text search failed with status 503")).
  - reflexivity.
  - now left.
  - vm_compute. reflexivity.
Defined.

(** The same world walked with the caps 1 and 2. *)
Lemma X8_witness :
  slice [summary "a" (Some "A") None] (of_nat 0) (of_Z 1)
  = firstn (Z.to_nat 1)
           (slice [summary "a" (Some "A") None; summary "b" (Some "B") None]
                  (of_nat 0) (of_Z 2)).
Proof.
  apply (X8_larger_cap_extends_the_summaries
           1 2 two_pages "coffee" "key" 1 2
           [SearchRequest 0 "coffee" None "key"]
           [SearchRequest 0 "coffee" None "key"; Sleep 2000;
            SearchRequest 1 "coffee" (Some "next") "key"]).
  - lia.
  - vm_compute. reflexivity.
  - vm_compute. reflexivity.
Defined.

(** A run that goes through, one of its two lookups failing. *)
Lemma X9_witness :
  exists effects records,
    POST no_fractions 1 one_harmless_failure (Return (request Undefined))
    = Some (effects, {| status := 200; body := Results records |})
    /\ records
       = map_indexed (record_of no_fractions one_harmless_failure "key") 0
           (slice (flat_map (page_results one_harmless_failure) effects)
                  (of_nat 0) (sanitizeMaxResults Undefined))
    /\ filter is_details_request effects
       = details_requests "key" 0
           (slice (flat_map (page_results one_harmless_failure) effects)
                  (of_nat 0) (sanitizeMaxResults Undefined))
    /\ length records <= 60.
Proof.
  do 2 eexists. split; [vm_compute; reflexivity|].
  apply (X9_records_of_a_successful_run
           no_fractions 1 one_harmless_failure (request Undefined) "key" "coffee").
  - reflexivity.
  - vm_compute. reflexivity.
Defined.

(** A chunk in which every lookup reports that the quota is spent. *)
Lemma X10_witness :
  exists c,
    details_requests "key" 0 a_and_b
    = details_requests "key" 0 (firstn (5 * S c) a_and_b)
    /\ (exists n summary,
           5 * c <= n < 5 * S c
           /\ nth_error a_and_b n = Some summary
           /\ fetchPlaceDetails out_of_quota n (place_id summary) "key"
              = Throw (Error quota_exceeded)
           /\ rethrown (Error quota_exceeded) = true)
    /\ (forall n summary e',
           n < 5 * c ->
           nth_error a_and_b n = Some summary ->
           fetchPlaceDetails out_of_quota n (place_id summary) "key" = Throw e' ->
           rethrown e' = false).
Proof.
  apply (X10_abort_is_by_whole_chunks
           no_fractions 2 out_of_quota "key" a_and_b
           (details_requests "key" 0 a_and_b) (Error quota_exceeded)).
  vm_compute. reflexivity.
Defined.

(** A run aborted by a lookup that reports that the quota is spent. *)
Lemma X11_witness :
  (exists e,
      Return (request Undefined) = Throw e
      /\ [SearchRequest 0 "coffee" None "key";
          DetailsRequest 0 "a" "key"; DetailsRequest 1 "b" "key"] = []
      /\ internal_error e = {| status := 500; body := ErrorBody quota_exceeded |})
  \/ (exists ev e,
         In ev [SearchRequest 0 "coffee" None "key";
                DetailsRequest 0 "a" "key"; DetailsRequest 1 "b" "key"]
         /\ search_outcome out_of_quota ev = Some (Throw e)
         /\ internal_error e = {| status := 500; body := ErrorBody quota_exceeded |})
  \/ (exists n id key,
         In (DetailsRequest n id key)
            [SearchRequest 0 "coffee" None "key";
             DetailsRequest 0 "a" "key"; DetailsRequest 1 "b" "key"]
         /\ fetchPlaceDetails out_of_quota n id key = Throw (Error quota_exceeded)
         /\ rethrown (Error quota_exceeded) = true).
Proof.
  apply (X11_every_500_has_its_cause
           no_fractions 1 out_of_quota (Return (request Undefined))
           [SearchRequest 0 "coffee" None "key";
            DetailsRequest 0 "a" "key"; DetailsRequest 1 "b" "key"]
           quota_exceeded).
  vm_compute. reflexivity.
Defined.

(** A run against a detail endpoint that is down. *)
Lemma X12_witness :
  exists effects response,
    POST no_fractions 1 details_down (Return (request Undefined)) = Some (effects, response)
    /\ (response
        = {| status := 200;
             body := Results
                       (map (fun summary => toRecord no_fractions summary None)
                            (slice (flat_map (page_results details_down) effects)
                                   (of_nat 0) (sanitizeMaxResults Undefined))) |}
        \/ exists ev e,
             In ev effects
             /\ search_outcome details_down ev = Some (Throw e)
             /\ response = internal_error e).
Proof.
  do 2 eexists. split; [vm_compute; reflexivity|].
  apply (X12_detail_outage_degrades_to_summaries
           no_fractions 1 details_down (request Undefined) "key" "coffee").
  - intros n id key. exists 503%Z, (Throw NotAnError). reflexivity.
  - reflexivity.
  - vm_compute. reflexivity.
Defined.

(** The requests for 2.5 and for 7 results. *)
Lemma X13_witness :
  exists a b : Z,
    sanitizeMaxResults (Num (Fin (5 # 2))) = of_Z a
    /\ sanitizeMaxResults (Num (Fin (7 # 1))) = of_Z b
    /\ (a <= b)%Z.
Proof.
  apply (X13_sanitizeMaxResults_is_monotone (5 # 2) (7 # 1)).
  unfold Qle. cbn. lia.
Defined.

(** The filled form, posted to a world where one lookup fails. *)
Lemma X17_witness :
  exists effects response,
    POST no_fractions 1 one_harmless_failure (Return (Page.request_body filled_form))
    = Some (effects, response)
    /\ Page.isLoading (Page.handleSubmit filled_form (Return response)) = false
    /\ match body response with
       | Results records =>
           Page.error (Page.handleSubmit filled_form (Return response)) = None
           /\ Page.results (Page.handleSubmit filled_form (Return response))
              = Some records
       | ErrorBody message =>
           Page.error (Page.handleSubmit filled_form (Return response))
           = Some message
           /\ Page.results (Page.handleSubmit filled_form (Return response))
              = Some []
       end.
Proof.
  do 2 eexists. split; [vm_compute; reflexivity|].
  eapply (X17_page_shows_what_the_route_answers
            no_fractions 1 one_harmless_failure filled_form).
  vm_compute. reflexivity.
Defined.
